(** * examples/summarization/utils.py: encode/cache step, dataset and sortish sampler

    A shallow embedding of [utils.py].  Python values are modelled as the
    code has them: lists as [list], indices as [nat], integer arguments that
    the caller supplies ([bs], [max_length], [n_obs]) as [Z], the file system
    as a finite map from paths to files, exceptions as an error result, and
    the two effects the module has (the numpy random generator and the file
    system with the tokenizer's call log) as explicit state. *)

From Stdlib Require Import ZArith Lia Permutation Sorted.
From Stdlib Require Import Ascii String.
From stdpp Require Import base list strings gmap pretty.

Open Scope nat_scope.

(** ** Exceptions and the state-and-exception monad *)

Inductive exn :=
| ValueError (msg : string)
| IndexError
| FileNotFoundError (path : string)
| UnpicklingError (path : string)
| UnicodeDecodeError (path : string)
| RuntimeError (msg : string).

Inductive result (A : Type) :=
| Ok (a : A)
| Raise (e : exn).
Arguments Ok {A} a.
Arguments Raise {A} e.

#[global] Instance result_ret : MRet result := λ A a, Ok a.
#[global] Instance result_bind : MBind result :=
  λ A B f m, match m with Ok a => f a | Raise e => Raise e end.

(** A computation over a state [St] that returns a value or raises; the
    state reached when the exception was raised is kept. *)
Definition M (St A : Type) : Type := St → result A * St.

#[global] Instance M_ret {St} : MRet (M St) := λ A a s, (Ok a, s).
#[global] Instance M_bind {St} : MBind (M St) :=
  λ A B f m s,
    match m s with
    | (Ok a, s') => f a s'
    | (Raise e, s') => (Raise e, s')
    end.

Definition lift {St A} (r : result A) : M St A := λ s, (r, s).

(** [[f(x) for x in l]] where [f] may raise. *)
Fixpoint mapM {A B} (f : A → result B) (l : list A) : result (list B) :=
  match l with
  | [] => Ok []
  | x :: r =>
      match f x with
      | Ok y => match mapM f r with Ok ys => Ok (y :: ys) | Raise e => Raise e end
      | Raise e => Raise e
      end
  end.

(** ** Python and numpy primitives used by the module *)

Module Py.

(** [l[i]] for a non-negative index. *)
Definition index {A} (l : list A) (i : nat) : result A :=
  match l !! i with
  | Some x => Ok x
  | None => Raise IndexError
  end.

(** [l[i:j]] for non-negative bounds: the slice is clamped to the list. *)
Definition slice {A} (l : list A) (i j : nat) : list A :=
  take (j - i) (drop i l).

(** [l[:n]] for an arbitrary integer [n]: a negative bound counts from
    the end. *)
Definition slice_to {A} (l : list A) (n : Z) : list A :=
  if (0 <=? n)%Z then take (Z.to_nat n) l
  else take (Z.to_nat (Z.of_nat (length l) + n)) l.

(** [range(0, stop, step)]: a zero step raises, a negative step gives the
    empty range, a positive one the multiples of [step] below [stop]. *)
Definition range (stop : nat) (step : Z) : result (list nat) :=
  if (step =? 0)%Z then Raise (ValueError "range() arg 3 must not be zero")
  else if (step <? 0)%Z then Ok []
  else
    let st := Z.to_nat step in
    Ok (map (λ k, k * st) (seq 0 ((stop + st - 1) / st))).

(** The value of [[l[i : i + sz] for i in range(0, len(l), sz)]] for a
    positive [sz], as a pure function. *)
Definition chunks {A} (sz : nat) (l : list A) : list (list A) :=
  map (λ i, slice l i (i + sz))
      (map (λ k, k * sz) (seq 0 ((length l + sz - 1) / sz))).

(** [sorted(s, key=key, reverse=True)]: the keys are computed once per
    element, the sort is stable and descending. *)
Fixpoint insert_desc {A} (f : A → nat) (x : A) (l : list A) : list A :=
  match l with
  | [] => [x]
  | y :: r => if f x <? f y then y :: insert_desc f x r else x :: y :: r
  end.

Fixpoint sort_desc {A} (f : A → nat) (l : list A) : list A :=
  match l with
  | [] => []
  | x :: r => insert_desc f x (sort_desc f r)
  end.

(** [x] may come before [y] in a descending order of [f]. *)
Definition desc {A} (f : A → nat) (x y : A) : Prop := f y ≤ f x.

Definition sorted_reverse {A} (s : list A) (key : A → result nat)
  : result (list A) :=
  keys ← mapM key s;
  mret (map snd (sort_desc fst (zip keys s))).

(** [np.concatenate(arrs)] of one-dimensional arrays. *)
Definition np_concatenate {A} (arrs : list (list A)) : result (list A) :=
  match arrs with
  | [] => Raise (ValueError "need at least one array to concatenate")
  | _ => Ok (concat arrs)
  end.

(** [np.argmax(l)]: the first position of the largest value. *)
Fixpoint argmax_from (best_i best_v i : nat) (l : list nat) : nat :=
  match l with
  | [] => best_i
  | v :: r =>
      if best_v <? v then argmax_from i v (S i) r
      else argmax_from best_i best_v (S i) r
  end.

Definition np_argmax (l : list nat) : result nat :=
  match l with
  | [] => Raise (ValueError "attempt to get argmax of an empty sequence")
  | v :: r => Ok (argmax_from 0 v 1 r)
  end.

End Py.

(** ** SortishSampler *)

Module SortishSampler.
Section Sampler.

(** The items of the data source and Python's [len] on them. *)
Context {A : Type} (len : A → nat).

(** numpy's global random generator: [np.random.permutation(n)] returns an
    array and advances the generator. *)
Context {rng : Type} (np_random_permutation : nat → rng → list nat * rng).

(** What is assumed of it: the array is a permutation of [range(n)]. *)
Definition rng_valid : Prop :=
  ∀ n g, (np_random_permutation n g).1 ≡ₚ seq 0 n.

Record t := { data_source : list A; bs : Z }.

(** [np.random.permutation(n)] for an integer [n]. *)
Definition permutation_int (n : nat) : M rng (list nat) :=
  λ g, let '(p, g') := np_random_permutation n g in (Ok p, g').

(** [np.random.permutation(x)] for a sequence [x]: the entries of [x]
    taken in the order of a random permutation of their positions.  Here
    [x] is a list of arrays; numpy makes it a two-dimensional array when
    the arrays are equally long and an array of arrays when the last batch
    is shorter, and shuffles along the first axis in both cases. *)
Definition permutation_seq {B} (x : list B) : M rng (list B) :=
  p ← permutation_int (length x);
  lift (mapM (Py.index x) p).

Definition key (self : t) (i : nat) : result nat :=
  x ← Py.index (data_source self) i;
  mret (len x).

(** The key of an index inside the data source, as a number. *)
Definition key_of (self : t) (i : nat) : nat :=
  default 0 (len <$> data_source self !! i).

(** The key of the first element of a batch. *)
Definition first_key (self : t) (ck : list nat) : nat :=
  key_of self (default 0 (ck !! 0)).

Definition __len__ (self : t) : nat := length (data_source self).

(** [[l[i : i + sz] for i in range(0, len(l), sz)]]. *)
Definition chunked {B} (l : list B) (sz : Z) : result (list (list B)) :=
  starts ← Py.range (length l) sz;
  mret (map (λ i, Py.slice l i (i + Z.to_nat sz)) starts).

(** The contents of [sort_idx] after line 159: the permutation cut in
    chunks of [bs * 50], each sorted by descending key. *)
Definition sort_chunks (self : t) (idxs : list nat) : result (list nat) :=
  let sz := (bs self * 50)%Z in
  ck_idx ← chunked idxs sz;
  sorted ← mapM (λ s, Py.sorted_reverse s (key self)) ck_idx;
  Py.np_concatenate sorted.

(** [ck_idx] after line 163: the batches of [bs] with the one whose first
    element has the largest key swapped to the front. *)
Definition batches_max_first (self : t) (sort_idx : list nat)
  : result (list (list nat)) :=
  let sz := bs self in
  ck_idx ← chunked sort_idx sz;
  keys ← mapM (λ ck, i ← Py.index ck 0; key self i) ck_idx;
  max_ck ← Py.np_argmax keys;
  a ← Py.index ck_idx max_ck;
  b ← Py.index ck_idx 0;
  mret (<[max_ck := b]> (<[0 := a]> ck_idx)).

Definition __iter__ (self : t) : M rng (list nat) :=
  idxs ← permutation_int (length (data_source self));
  sort_idx ← lift (sort_chunks self idxs);
  ck_idx ← lift (batches_max_first self sort_idx);
  sort_idx ←
    (if 1 <? length ck_idx
     then p ← permutation_seq (drop 1 ck_idx); lift (Py.np_concatenate p)
     else mret []);
  first ← lift (Py.index ck_idx 0);
  mret (first ++ sort_idx).

End Sampler.
End SortishSampler.

(** ** Text helpers *)

Definition is_empty (s : string) : bool :=
  match s with EmptyString => true | String _ _ => false end.

(** A [string] holds a text as the bytes of its UTF-8 encoding, one [ascii]
    a byte.  A character is one byte or a run of two to four bytes; a
    character of the text is removed by removing its bytes.

    These are the code points of the characters Python's [str.isspace]
    accepts, the ones [str.strip] removes: the ASCII controls 9 to 13 and
    28 to 31, the space, U+0085, U+00A0, U+1680, U+2000 to U+200A, U+2028,
    U+2029, U+202F, U+205F and U+3000. *)
Definition space_code_points : list N :=
  [9; 10; 11; 12; 13; 28; 29; 30; 31; 32; 133; 160; 5760;
   8192; 8193; 8194; 8195; 8196; 8197; 8198; 8199; 8200; 8201; 8202;
   8232; 8233; 8239; 8287; 12288]%N.

(** The UTF-8 encoding of a code point below [2^16]. *)
Definition utf8 (cp : N) : string :=
  if (cp <? 128)%N then String (Ascii.ascii_of_N cp) ""
  else if (cp <? 2048)%N then
    String (Ascii.ascii_of_N (192 + cp / 64))
      (String (Ascii.ascii_of_N (128 + cp mod 64)) "")
  else
    String (Ascii.ascii_of_N (224 + cp / 4096))
      (String (Ascii.ascii_of_N (128 + (cp / 64) mod 64))
         (String (Ascii.ascii_of_N (128 + cp mod 64)) "")).

(** The white-space characters, as byte strings. *)
Definition space_chars : list string := map utf8 space_code_points.

(** [ch] is one white-space character. *)
Definition is_space (ch : string) : bool := existsb (String.eqb ch) space_chars.

(** [s] is made of white-space characters only. *)
Definition all_space (s : string) : Prop :=
  ∃ chars, Forall (λ ch, is_space ch = true) chars ∧ s = foldr String.app "" chars.

(** The text behind the prefix [p] of [s], if [s] begins with [p]. *)
Fixpoint strip_prefix (p s : string) : option string :=
  match p with
  | EmptyString => Some s
  | String a p' =>
      match s with
      | EmptyString => None
      | String b s' => if Ascii.eqb a b then strip_prefix p' s' else None
      end
  end.

(** The text before the suffix [p] of [s], if [s] ends with [p]. *)
Fixpoint strip_suffix (p s : string) : option string :=
  match s with
  | EmptyString => if is_empty p then Some EmptyString else None
  | String c r =>
      if String.eqb s p then Some EmptyString
      else String c <$> strip_suffix p r
  end.

Fixpoint first_match {A} (f : string → option A) (l : list string) : option A :=
  match l with
  | [] => None
  | ch :: l' => match f ch with Some r => Some r | None => first_match f l' end
  end.

(** [s] without the white-space character it begins with, or ends with. *)
Definition drop_space (s : string) : option string :=
  first_match (λ ch, strip_prefix ch s) space_chars.

Definition drop_space_end (s : string) : option string :=
  first_match (λ ch, strip_suffix ch s) space_chars.

(** [str.lstrip] and [str.rstrip]: white-space characters are removed one
    by one from the front, or from the end, until the text begins, or ends,
    with another character; there are no more steps than the text has
    bytes. *)
Fixpoint lstrip_go (fuel : nat) (s : string) : string :=
  match fuel with
  | 0 => s
  | S n => match drop_space s with Some r => lstrip_go n r | None => s end
  end.

Fixpoint rstrip_go (fuel : nat) (s : string) : string :=
  match fuel with
  | 0 => s
  | S n => match drop_space_end s with Some r => rstrip_go n r | None => s end
  end.

Definition lstrip (s : string) : string := lstrip_go (String.length s) s.
Definition rstrip (s : string) : string := rstrip_go (String.length s) s.

(** [str.strip] *)
Definition strip (s : string) : string := rstrip (lstrip s).

(** In UTF-8 a character is one byte that is not a continuation byte
    followed by continuation bytes only. *)
Definition is_continuation (c : Ascii.ascii) : bool :=
  let n := Ascii.N_of_ascii c in ((128 <=? n) && (n <? 192))%N.

Fixpoint all_continuation (s : string) : bool :=
  match s with
  | EmptyString => true
  | String c r => is_continuation c && all_continuation r
  end.

Definition utf8_char (ch : string) : bool :=
  match ch with
  | EmptyString => false
  | String c r => negb (is_continuation c) && all_continuation r
  end.

Definition starts_with_slash (s : string) : bool :=
  match s with
  | EmptyString => false
  | String c _ => if Ascii.ascii_dec c "/"%char then true else false
  end.

Fixpoint ends_with_slash (s : string) : bool :=
  match s with
  | EmptyString => false
  | String c EmptyString => if Ascii.ascii_dec c "/"%char then true else false
  | String _ r => ends_with_slash r
  end.

(** [os.path.join(a, b)] on a POSIX system. *)
Definition path_join (a b : string) : string :=
  if starts_with_slash b then b
  else if is_empty a || ends_with_slash a then a +:+ b
  else a +:+ "/" +:+ b.

Definition PSEUDO_ID_SUFFIX : string := "pseudo_target.pkl".
Definition T5_PREFIX : string := "summarize: ".

Definition lmap {A B} (f : A → B) (x : list A) : list B := map f x.

(** ** The encode/cache step *)

Inductive tokenizer_class := BartTokenizer | OtherTokenizer.

Section Encode.

(** What [tokenizer.batch_encode_plus] returns for one call. *)
Context {example : Type}.

Record tokenizer := {
  tok_class : tokenizer_class;
  (** texts, max_length, pad_to_max_length, add_prefix_space, return_tensors *)
  batch_encode_plus : list string → Z → bool → bool → string → example
}.

Definition isinstance_BartTokenizer (tok : tokenizer) : bool :=
  match tok_class tok with BartTokenizer => true | OtherTokenizer => false end.

(** One recorded call of [batch_encode_plus]. *)
Record call := {
  call_texts : list string;
  call_max_length : Z;
  call_pad_to_max_length : bool;
  call_add_prefix_space : bool;
  call_return_tensors : string
}.

(** A file holds text, given by the lines [readlines] returns, or a list
    of examples written by [torch.save]. *)
Inductive file :=
| TextFile (lines : list string)
| PickleFile (obj : list example).

Record world := {
  fs : gmap string file;
  tok_calls : list call
}.

Definition path_exists (path : string) : M world bool :=
  λ w, (Ok (bool_decide (is_Some (fs w !! path))), w).

(** [torch.load(path.open("rb"))] *)
Definition torch_load (path : string) : M world (list example) :=
  λ w, match fs w !! path with
       | Some (PickleFile obj) => (Ok obj, w)
       | Some (TextFile _) => (Raise (UnpicklingError path), w)
       | None => (Raise (FileNotFoundError path), w)
       end.

(** [torch.save(obj, path)] *)
Definition torch_save (obj : list example) (path : string) : M world unit :=
  λ w, (Ok (), {| fs := <[path := PickleFile obj]> (fs w);
                  tok_calls := tok_calls w |}).

(** [path.open().readlines()]; a pickle opened as text is taken not to
    decode. *)
Definition readlines (path : string) : M world (list string) :=
  λ w, match fs w !! path with
       | Some (TextFile lines) => (Ok lines, w)
       | Some (PickleFile _) => (Raise (UnicodeDecodeError path), w)
       | None => (Raise (FileNotFoundError path), w)
       end.

Definition call_batch_encode_plus (tok : tokenizer) (texts : list string)
    (max_length : Z) (pad_to_max_length add_prefix_space : bool)
    (return_tensors : string) : M world example :=
  λ w, (Ok (batch_encode_plus tok texts max_length pad_to_max_length
              add_prefix_space return_tensors),
        {| fs := fs w;
           tok_calls := tok_calls w ++
             [{| call_texts := texts;
                 call_max_length := max_length;
                 call_pad_to_max_length := pad_to_max_length;
                 call_add_prefix_space := add_prefix_space;
                 call_return_tensors := return_tensors |}] |}).

(** The loop of lines 43 to 51, with [examples] the list built so far. *)
Fixpoint tokenize_loop (tok : tokenizer) (max_length : Z)
    (pad_to_max_length : bool) (return_tensors : string)
    (lns : list string) (examples : list example) : M world (list example) :=
  match lns with
  | [] => mret examples
  | text :: rest =>
      tokenized ← call_batch_encode_plus tok [text] max_length
                    pad_to_max_length true return_tensors;
      tokenize_loop tok max_length pad_to_max_length return_tensors rest
        (examples ++ [tokenized])
  end.

(** What the loop appends for one line of the file: the encoding of the
    stripped line behind the prefix, and the call it records. *)
Definition encode_line (tok : tokenizer) (max_length : Z)
    (pad_to_max_length : bool) (return_tensors prefix line : string) : example :=
  batch_encode_plus tok [prefix +:+ strip line] max_length pad_to_max_length
    true return_tensors.

Definition call_of (max_length : Z) (pad_to_max_length : bool)
    (return_tensors prefix line : string) : call :=
  {| call_texts := [prefix +:+ strip line];
     call_max_length := max_length;
     call_pad_to_max_length := pad_to_max_length;
     call_add_prefix_space := true;
     call_return_tensors := return_tensors |}.

Definition cache_path_of (data_path tok_name : string) (max_length : Z) : string :=
  data_path +:+ "_" +:+ tok_name +:+ pretty max_length +:+ ".pkl".

Definition encode_file (tok : tokenizer) (data_path : string) (max_length : Z)
    (pad_to_max_length : bool) (return_tensors : string)
    (overwrite_cache : bool) (prefix tok_name : string)
  : M world (list example) :=
  let cache_path := cache_path_of data_path tok_name max_length in
  cached ← path_exists cache_path;
  if negb overwrite_cache && cached then torch_load cache_path
  else
    lns ← readlines data_path;
    let lns := lmap strip lns in
    let lns := map (λ text, prefix +:+ text) lns in
    examples ← tokenize_loop tok max_length pad_to_max_length return_tensors lns [];
    _ ← torch_save examples cache_path;
    mret examples.

(** ** SummarizationDataset *)

Record SummarizationDataset := {
  source : list example;
  target : list example;
  max_source_length : Z;
  max_target_length : Z
}.

(** The class attribute [pad_token_id]. *)
Definition pad_token_id : Z := 1.

Definition __init__ (source target : list example)
    (max_source_length max_target_length : Z) (n_obs : option Z)
  : SummarizationDataset :=
  let '(source, target) :=
    match n_obs with
    | Some n => (Py.slice_to source n, Py.slice_to target n)
    | None => (source, target)
    end in
  {| source := source; target := target;
     max_source_length := max_source_length;
     max_target_length := max_target_length |}.

Definition __len__ (self : SummarizationDataset) : nat := length (source self).

Definition from_raw_data (tok : tokenizer) (data_dir type_path : string)
    (max_source_length max_target_length : Z) (n_obs : option Z)
    (overwrite_cache : bool) (tgt_suffix : string)
  : M world SummarizationDataset :=
  let tok_name := if negb (isinstance_BartTokenizer tok) then "T5" else "" in
  let prefix := if String.eqb tok_name "T5" then T5_PREFIX else "" in
  source ← encode_file tok (path_join data_dir (type_path +:+ ".source"))
             max_source_length true "pt" overwrite_cache prefix tok_name;
  let tgt_path :=
    if String.eqb type_path "train"
    then path_join data_dir (type_path +:+ ".target" +:+ tgt_suffix)
    else path_join data_dir (type_path +:+ ".target") in
  target ← encode_file tok tgt_path max_target_length true "pt"
             overwrite_cache "" tok_name;
  mret (__init__ source target max_source_length max_target_length n_obs).

Definition make_sortish_sampler (self : SummarizationDataset) (batch_size : Z)
  : SortishSampler.t (A := example) :=
  {| SortishSampler.data_source := source self; SortishSampler.bs := batch_size |}.

End Encode.

(** ** Collation *)

(** A one-dimensional tensor of integers, and a two-dimensional one as the
    list of its rows. *)
Abbreviation tensor1 := (list Z).
Abbreviation tensor2 := (list (list Z)).

(** What [__getitem__] returns, and the batch [collate_fn] builds. *)
Record item := {
  input_ids : tensor1;
  attention_mask : tensor1;
  decoder_input_ids : tensor1
}.

Record batch := {
  batch_input_ids : tensor2;
  batch_attention_mask : tensor2;
  batch_decoder_input_ids : tensor2
}.

(** [torch.stack] of one-dimensional tensors: the list must not be empty and
    all tensors must have the size of the first. *)
Definition torch_stack (ts : list tensor1) : result tensor2 :=
  match ts with
  | [] => Raise (RuntimeError "stack expects a non-empty TensorList")
  | t0 :: rest =>
      if forallb (λ t, length t =? length t0) rest then Ok ts
      else Raise (RuntimeError "stack expects each tensor to be equal size")
  end.

Section Collate.

(** [transformers.tokenization_utils.trim_batch], in its two call shapes:
    without and with an attention mask. *)
Context (trim_batch : tensor2 → Z → tensor2).
Context (trim_batch_with_mask : tensor2 → Z → tensor2 → tensor2 * tensor2).

Definition trim_seq2seq_batch (b : batch) (pad_token_id : Z)
  : tensor2 * tensor2 * tensor2 :=
  let y := trim_batch (batch_decoder_input_ids b) pad_token_id in
  let '(source_ids, source_mask) :=
    trim_batch_with_mask (batch_input_ids b) pad_token_id (batch_attention_mask b) in
  (source_ids, source_mask, y).

Definition collate_fn {example} (self : SummarizationDataset (example := example))
    (items : list item) : result batch :=
  input_ids ← torch_stack (map input_ids items);
  masks ← torch_stack (map attention_mask items);
  target_ids ← torch_stack (map decoder_input_ids items);
  let pad_token_id := pad_token_id in
  let y := trim_batch target_ids pad_token_id in
  let '(source_ids, source_mask) :=
    trim_batch_with_mask input_ids pad_token_id masks in
  mret {| batch_input_ids := source_ids;
          batch_attention_mask := source_mask;
          batch_decoder_input_ids := y |}.

End Collate.

(** [trim_batch] of [transformers.tokenization_utils] is imported by the
    module and is not among its sources; the definitions of this module
    follow the spec's description of it. *)
Module TrimBatch.

(** The length of a row once its trailing pad tokens are removed. *)
Fixpoint content_len (pad : Z) (row : tensor1) : nat :=
  match row with
  | [] => 0
  | x :: r =>
      let c := content_len pad r in
      if (c =? 0) && (x =? pad)%Z then 0 else S c
  end.

(** The longest non-pad content present in the batch. *)
Definition keep_width (pad : Z) (rows : tensor2) : nat :=
  max_list (map (content_len pad) rows).

(** Modelled from the spec: [trim_batch(input_ids, pad_token_id)], whose
    source is missing.  The spec has it remove the trailing padding columns
    shared by the whole batch, down to the longest non-pad content length
    present. *)
Definition trim_batch (input_ids : tensor2) (pad_token_id : Z) : tensor2 :=
  map (take (keep_width pad_token_id input_ids)) input_ids.

(** Modelled from the spec: [trim_batch(input_ids, pad_token_id,
    attention_mask=mask)], whose source is missing.  The columns kept are
    decided on [input_ids] and the mask is cut to the same width. *)
Definition trim_batch_with_mask (input_ids : tensor2) (pad_token_id : Z)
    (attention_mask : tensor2) : tensor2 * tensor2 :=
  let w := keep_width pad_token_id input_ids in
  (map (take w) input_ids, map (take w) attention_mask).

End TrimBatch.

(** ** Loading a pickle, tensors and indexed access *)

(** [load_pt(path)] *)
Definition load_pt {example} (path : string)
  : M (world (example := example)) (list example) :=
  torch_load path.

(** A tensor of integers: its shape and its entries in row-major order. *)
Record tensor := { shape : list nat; entries : list Z }.

(** [t.squeeze()]: the dimensions of size one are dropped. *)
Definition squeeze (t : tensor) : tensor :=
  {| shape := filter (λ d, d ≠ 1) (shape t); entries := entries t |}.

(** The exceptions of subscripting a list or a dict. *)
Inductive subscript_exn :=
| SubscriptIndexError
| SubscriptKeyError (key : string).

Inductive subscript (A : Type) :=
| Got (a : A)
| Missing (e : subscript_exn).
Arguments Got {A} a.
Arguments Missing {A} e.

#[global] Instance subscript_ret : MRet subscript := λ A a, Got a.
#[global] Instance subscript_bind : MBind subscript :=
  λ A B f m, match m with Got a => f a | Missing e => Missing e end.

(** [l[i]] for an integer [i]: a negative index counts from the end. *)
Definition list_getitem {A} (l : list A) (i : Z) : subscript A :=
  let n := Z.of_nat (length l) in
  let j := if (i <? 0)%Z then (i + n)%Z else i in
  if (0 <=? j)%Z && (j <? n)%Z then
    match l !! Z.to_nat j with
    | Some x => Got x
    | None => Missing SubscriptIndexError
    end
  else Missing SubscriptIndexError.

(** [d[k]] for a dict of named tensors. *)
Definition dict_getitem (d : gmap string tensor) (k : string) : subscript tensor :=
  match d !! k with
  | Some t => Got t
  | None => Missing (SubscriptKeyError k)
  end.

(** Python's [len] of such a dict. *)
Definition dict_len (d : gmap string tensor) : nat := size d.

(** The dict [__getitem__] returns. *)
Record tensor_item := {
  item_input_ids : tensor;
  item_attention_mask : tensor;
  item_decoder_input_ids : tensor
}.

(** [__getitem__]: the examples are dicts of named tensors; the source ids
    are read first, then the target ids, then the source mask. *)
Definition __getitem__ (self : SummarizationDataset (example := gmap string tensor))
    (index : Z) : subscript tensor_item :=
  source_ids ← (e ← list_getitem (source self) index;
                t ← dict_getitem e "input_ids"; mret (squeeze t));
  target_ids ← (e ← list_getitem (target self) index;
                t ← dict_getitem e "input_ids"; mret (squeeze t));
  src_mask ← (e ← list_getitem (source self) index;
              t ← dict_getitem e "attention_mask"; mret (squeeze t));
  mret {| item_input_ids := source_ids;
          item_attention_mask := src_mask;
          item_decoder_input_ids := target_ids |}.

(** The properties [src_lens] and [tgt_lens], for Python's [len] on an
    example. *)
Definition src_lens {example} (len : example → nat)
    (self : SummarizationDataset (example := example)) : list nat :=
  lmap len (source self).

Definition tgt_lens {example} (len : example → nat)
    (self : SummarizationDataset (example := example)) : list nat :=
  lmap len (target self).

(** A one-dimensional tensor seen as the list of its entries, which is how
    [collate_fn] is given the items. *)
Definition item_of (x : tensor_item) : item :=
  {| input_ids := entries (item_input_ids x);
     attention_mask := entries (item_attention_mask x);
     decoder_input_ids := entries (item_decoder_input_ids x) |}.

(** The dict holds under [key] a tensor of shape [(1, width)]. *)
Definition has_row (key : string) (width : nat) (d : gmap string tensor) : Prop :=
  ∃ t, d !! key = Some t ∧ shape t = [1; width] ∧ length (entries t) = width.

(** The items can be stacked: there is one, and each field has one width
    across the items. *)
Definition stackable (items : list item) : Prop :=
  items ≠ [] ∧
  (∃ n, Forall (λ x, length (input_ids x) = n) items) ∧
  (∃ n, Forall (λ x, length (attention_mask x) = n) items) ∧
  (∃ n, Forall (λ x, length (decoder_input_ids x) = n) items).

(** ** A concrete random generator, used to run the sampler *)

(** The generator state is a counter; the [n] positions are rotated by it. *)
Definition rotate_rng (n : nat) (g : nat) : list nat * nat :=
  (rotate g (seq 0 n), S g).

(** ** Concrete inputs on which the definitions are run *)

(** Seven source items of 3, 1, 4, 1, 5, 9 and 2 tokens, in batches of 3. *)
Definition demo_source : list tensor1 :=
  map (λ n, replicate n 7%Z) [3; 1; 4; 1; 5; 9; 2].

Definition demo_sampler : SortishSampler.t :=
  {| SortishSampler.data_source := demo_source; SortishSampler.bs := 3 |}.

(** The same items with a batch size that holds them all. *)
Definition demo_single_batch_sampler : SortishSampler.t :=
  {| SortishSampler.data_source := demo_source; SortishSampler.bs := 10 |}.

(** A tokenizer whose encoding of a call is the texts and the maximal
    length it was given. *)
Definition demo_tokenizer : tokenizer (example := list string * Z) :=
  {| tok_class := OtherTokenizer;
     batch_encode_plus := λ texts max_length _ _ _, (texts, max_length) |}.

Definition demo_source_lines : list string := ["  the cat sat  "; "a dog ran"].
Definition demo_target_lines : list string := ["cat "; " dog"].

Definition demo_world : world (example := list string * Z) :=
  {| fs := {[ "data/train.source" := TextFile demo_source_lines;
              "data/train.target" := TextFile demo_target_lines ]};
     tok_calls := [] |}.

(** Two items of 5 and 8 tokens padded to 20 with the pad id 1. *)
Definition demo_items : list item :=
  [ {| input_ids := [11; 12; 13; 14; 15]%Z ++ replicate 15 1%Z;
       attention_mask := replicate 5 1%Z ++ replicate 15 0%Z;
       decoder_input_ids := [31; 32]%Z ++ replicate 4 1%Z |};
    {| input_ids := [21; 22; 23; 24; 25; 26; 27; 28]%Z ++ replicate 12 1%Z;
       attention_mask := replicate 8 1%Z ++ replicate 12 0%Z;
       decoder_input_ids := [41; 42; 43]%Z ++ replicate 3 1%Z |} ].

Definition demo_dataset : SummarizationDataset (example := unit) :=
  __init__ [(); ()] [(); ()] 1024 56 None.

(** An encoding with the two tensors of one line, of shape [(1, width)]. *)
Definition demo_encoding (ids mask : list Z) : gmap string tensor :=
  {[ "input_ids" := {| shape := [1; length ids]; entries := ids |};
     "attention_mask" := {| shape := [1; length mask]; entries := mask |} ]}.

(** A dataset of two pairs, the sources padded to 3 and the targets to 2. *)
Definition demo_dict_dataset : SummarizationDataset (example := gmap string tensor) :=
  __init__ [demo_encoding [11; 12; 1]%Z [1; 1; 0]%Z;
            demo_encoding [21; 22; 23]%Z [1; 1; 1]%Z]
           [demo_encoding [31; 1]%Z [1; 0]%Z; demo_encoding [41; 42]%Z [1; 1]%Z]
           3 2 None.

(** The number of tokens of an encoding: the entries of its ["input_ids"]
    that are not the pad token. *)
Definition token_count (d : gmap string tensor) : nat :=
  match d !! "input_ids" with
  | Some t => length (filter (λ x, x ≠ pad_token_id) (entries t))
  | None => 0
  end.

(** A dataset of three pairs whose sources have 2, 5 and 3 tokens, padded
    to 5 with the pad id 1 as [encode_file] pads them. *)
Definition demo_padded_dataset : SummarizationDataset (example := gmap string tensor) :=
  __init__ [demo_encoding [11; 12; 1; 1; 1]%Z [1; 1; 0; 0; 0]%Z;
            demo_encoding [21; 22; 23; 24; 25]%Z [1; 1; 1; 1; 1]%Z;
            demo_encoding [31; 32; 33; 1; 1]%Z [1; 1; 1; 0; 0]%Z]
           [demo_encoding [41; 1]%Z [1; 0]%Z; demo_encoding [51; 52]%Z [1; 1]%Z;
            demo_encoding [61; 1]%Z [1; 0]%Z]
           5 2 None.

(** A data source of 103 items of 0 to 6 tokens, read one item a batch:
    three chunks of 50, 50 and 3 indices. *)
Definition demo_long_sampler : SortishSampler.t :=
  {| SortishSampler.data_source := map (λ i, replicate (i `mod` 7) 7%Z) (seq 0 103);
     SortishSampler.bs := 1 |}.

(** The lines of [demo_source_lines] with more white space around them: an
    ideographic space (U+3000) before the first and a no-break space
    (U+00A0) behind it, a line separator (U+2028) and a newline behind the
    second. *)
Definition demo_unicode_lines : list string :=
  [utf8 12288 +:+ "  the cat sat  " +:+ utf8 160;
   "a dog ran" +:+ utf8 8232 +:+ utf8 10].

(** The files of [demo_world] with that white space around the source
    lines, and without the target file. *)
Definition demo_world_spaced : world (example := list string * Z) :=
  {| fs := {[ "data/train.source" := TextFile demo_unicode_lines;
              "data/train.target" := TextFile demo_target_lines ]};
     tok_calls := [] |}.

Definition demo_world_no_target : world (example := list string * Z) :=
  {| fs := {[ "data/train.source" := TextFile demo_source_lines ]};
     tok_calls := [] |}.

(** * Facts about the Python primitives *)

(** Runs the first bind of a computation in [M]. *)
Ltac run_bind := unfold mbind at 1, M_bind.

(** Turns a permutation of [range(n)] into bounds on its elements. *)
Ltac perm_bounds Hperm :=
  rewrite Hperm; apply Forall_forall; intros ? ?%elem_of_seq; lia.

Section PyFacts.
Context {A : Type}.
Implicit Types (l : list A) (sz : nat).

Lemma mapM_Forall2 {B} (f : A → result B) l ys :
  mapM f l = Ok ys ↔ Forall2 (λ a b, f a = Ok b) l ys.
Proof.
  revert ys. induction l as [|x l IH]; intros ys; simpl.
  - split; [intros [= <-]; constructor | by inversion 1].
  - destruct (f x) as [y|e] eqn:Hx.
    + destruct (mapM f l) as [zs|e] eqn:Hl.
      * split.
        -- intros [= <-]. constructor; [done | by apply IH].
        -- inversion 1 as [|? b ? bs Hb Hbs]; subst.
           apply IH in Hbs. congruence.
      * split; [done |].
        inversion 1 as [|? b ? bs Hb Hbs]; subst.
        apply IH in Hbs. done.
    + split; [done |]. inversion 1; congruence.
Qed.

Lemma mapM_total {B} (f : A → result B) (h : A → B) l :
  Forall (λ a, f a = Ok (h a)) l → mapM f l = Ok (map h l).
Proof.
  induction 1 as [|x l Hx _ IH]; simpl; [done |].
  by rewrite Hx, IH.
Qed.

Lemma ceil_div_step n sz :
  0 < sz → 0 < n → (n + sz - 1) / sz = S ((n - sz + sz - 1) / sz).
Proof.
  intros Hsz Hn. destruct (decide (sz ≤ n)) as [Hle|Hlt].
  - replace (n + sz - 1) with ((n - sz + sz - 1) + 1 * sz) by lia.
    rewrite Nat.div_add by lia. lia.
  - replace (n - sz) with 0 by lia. simpl.
    rewrite (Nat.div_small (sz - 1)) by lia.
    replace (n + sz - 1) with ((n - 1) + 1 * sz) by lia.
    rewrite Nat.div_add by lia. rewrite Nat.div_small by lia. done.
Qed.

Lemma chunks_nil sz : Py.chunks sz (@nil A) = [].
Proof.
  unfold Py.chunks. simpl.
  destruct sz as [|sz]; [done |].
  rewrite Nat.div_small by lia. done.
Qed.

Lemma chunks_cons sz l :
  0 < sz → l ≠ [] →
  Py.chunks sz l = take sz l :: Py.chunks sz (drop sz l).
Proof.
  intros Hsz Hl. unfold Py.chunks.
  assert (0 < length l) by (destruct l; simpl; [done | lia]).
  rewrite ceil_div_step by done.
  rewrite length_drop. simpl seq. rewrite <- fmap_S_seq.
  simpl. f_equal.
  - unfold Py.slice. simpl. by rewrite Nat.sub_0_r.
  - rewrite !map_map. apply map_ext. intros k.
    unfold Py.slice. rewrite drop_drop.
    replace (S k * sz) with (sz + k * sz) by lia.
    f_equal; lia.
Qed.

Lemma chunks_ind sz (P : list A → Prop) :
  0 < sz → P [] → (∀ l, l ≠ [] → P (drop sz l) → P l) → ∀ l, P l.
Proof.
  intros Hsz Hnil Hstep l.
  induction l as [l IH] using (induction_ltof1 _ length).
  destruct l as [|x l]; [done |].
  apply Hstep; [done |]. apply IH. unfold ltof.
  rewrite length_drop. simpl. lia.
Qed.

Lemma concat_chunks sz l : 0 < sz → concat (Py.chunks sz l) = l.
Proof.
  intros Hsz. revert l. apply (chunks_ind sz); [done | |].
  - by rewrite chunks_nil.
  - intros l Hl IH. rewrite chunks_cons by done. simpl.
    rewrite IH. apply take_drop.
Qed.

Lemma chunks_app sz k l1 l2 :
  0 < sz → length l1 = k * sz →
  Py.chunks sz (l1 ++ l2) = Py.chunks sz l1 ++ Py.chunks sz l2.
Proof.
  intros Hsz. revert l1. induction k as [|k IH]; intros l1 Hlen.
  - destruct l1; [| done]. by rewrite chunks_nil.
  - assert (l1 ≠ []) by (intros ->; simpl in *; lia).
    rewrite (chunks_cons sz l1) by done.
    rewrite (chunks_cons sz (l1 ++ l2)) by (destruct l1; done).
    simpl. rewrite take_app_le, drop_app_le by lia.
    rewrite IH; [done |]. rewrite length_drop. lia.
Qed.

Lemma length_chunks sz l :
  length (Py.chunks sz l) = (length l + sz - 1) / sz.
Proof. unfold Py.chunks. by rewrite !length_map, length_seq. Qed.

Lemma ceil_div_lt n sz j : 0 < sz → j < (n + sz - 1) / sz ↔ j * sz < n.
Proof.
  intros Hsz. split; intros Hj.
  - destruct (decide (j * sz < n)) as [|Hge]; [done | exfalso].
    assert ((n + sz - 1) / sz < S j); [| lia].
    apply Nat.Div0.div_lt_upper_bound. nia.
  - apply Nat.div_le_lower_bound; [lia | nia].
Qed.

(** The [j]-th chunk is the slice of [l] that starts at [j * sz]. *)
Lemma chunks_lookup sz l j c :
  0 < sz →
  Py.chunks sz l !! j = Some c ↔
  j * sz < length l ∧ c = Py.slice l (j * sz) (j * sz + sz).
Proof.
  intros Hsz. unfold Py.chunks. rewrite !list_lookup_fmap.
  rewrite <- ceil_div_lt by done.
  destruct (decide (j < (length l + sz - 1) / sz)) as [Hlt|Hge].
  - rewrite lookup_seq_lt by done. simpl. split.
    + by intros [= <-].
    + by intros [_ ->].
  - rewrite lookup_seq_ge by lia. simpl. split; [done | tauto].
Qed.

Lemma slice_chunk_length sz l j :
  length (Py.slice l (j * sz) (j * sz + sz)) = Nat.min sz (length l - j * sz).
Proof. unfold Py.slice. rewrite length_take, length_drop. lia. Qed.

Lemma chunks_single sz l : l ≠ [] → length l ≤ sz → Py.chunks sz l = [l].
Proof.
  intros Hl Hsz.
  assert (0 < length l) by (destruct l; simpl; [done | lia]).
  rewrite chunks_cons by (done || lia).
  rewrite take_ge, drop_ge by lia. by rewrite chunks_nil.
Qed.

Lemma chunks_nonempty sz l c : 0 < sz → c ∈ Py.chunks sz l → c ≠ [].
Proof.
  intros Hsz [j Hj]%list_elem_of_lookup.
  apply chunks_lookup in Hj as [Hlt ->]; [| done].
  intros Hnil. apply (f_equal length) in Hnil.
  rewrite slice_chunk_length in Hnil. simpl in Hnil. lia.
Qed.

End PyFacts.

Section SortFacts.
Context {A : Type} (f : A → nat).

Lemma insert_desc_perm x (l : list A) : Py.insert_desc f x l ≡ₚ x :: l.
Proof.
  induction l as [|y l IH]; simpl; [done |].
  destruct (f x <? f y); [| done].
  rewrite IH. apply perm_swap.
Qed.

Lemma sort_desc_perm (l : list A) : Py.sort_desc f l ≡ₚ l.
Proof.
  induction l as [|x l IH]; simpl; [done |].
  by rewrite insert_desc_perm, IH.
Qed.

Lemma insert_desc_sorted x (l : list A) :
  StronglySorted (Py.desc f) l → StronglySorted (Py.desc f) (Py.insert_desc f x l).
Proof.
  induction 1 as [|y l Hl IH Hy]; simpl.
  - repeat constructor.
  - destruct (f x <? f y) eqn:Hxy.
    + apply Nat.ltb_lt in Hxy. constructor; [done |].
      rewrite insert_desc_perm. constructor; [unfold Py.desc; lia | done].
    + apply Nat.ltb_ge in Hxy. constructor; [by constructor |].
      constructor; [done |].
      eapply Forall_impl; [exact Hy |]. unfold Py.desc. intros; simpl in *. lia.
Qed.

Lemma sort_desc_sorted (l : list A) : StronglySorted (Py.desc f) (Py.sort_desc f l).
Proof.
  induction l as [|x l IH]; simpl; [constructor |].
  by apply insert_desc_sorted.
Qed.

Lemma length_sort_desc (l : list A) : length (Py.sort_desc f l) = length l.
Proof. apply Permutation_length, sort_desc_perm. Qed.

Lemma sort_desc_nonempty (l : list A) : l ≠ [] → Py.sort_desc f l ≠ [].
Proof.
  intros Hl Hs. apply (f_equal length) in Hs.
  rewrite length_sort_desc in Hs. by destruct l.
Qed.

(** The first element of a sorted chunk has the largest key in it. *)
Lemma sort_desc_head (l : list A) x s e :
  Py.sort_desc f l = x :: s → e ∈ l → f e ≤ f x.
Proof.
  intros Hs He. pose proof (sort_desc_sorted l) as Hsorted.
  rewrite <- (sort_desc_perm l), Hs in He. rewrite Hs in Hsorted.
  apply StronglySorted_inv in Hsorted as [_ Hall].
  apply elem_of_cons in He as [-> | He]; [done |].
  rewrite Forall_forall in Hall. by apply Hall.
Qed.

(** Sorting the pairs of key and element on the key, as [sorted] does,
    sorts the elements by their key. *)
Lemma insert_desc_decorated x (ps : list (nat * A)) :
  Forall (λ p, p.1 = f p.2) ps →
  map snd (Py.insert_desc fst (f x, x) ps) = Py.insert_desc f x (map snd ps).
Proof.
  induction 1 as [|[k y] ps Hk _ IH]; simpl in *; [done |].
  subst k. destruct (f x <? f y); simpl; [by rewrite IH | done].
Qed.

Lemma insert_desc_Forall {B} (g : B → nat) (P : B → Prop) x (l : list B) :
  P x → Forall P l → Forall P (Py.insert_desc g x l).
Proof.
  intros Hx. induction 1 as [|y l Hy Hl IH]; simpl; [by repeat constructor |].
  destruct (g x <? g y); by repeat constructor.
Qed.

Lemma sort_desc_decorated (l : list A) :
  Forall (λ p, p.1 = f p.2) (Py.sort_desc fst (zip (map f l) l)) ∧
  map snd (Py.sort_desc fst (zip (map f l) l)) = Py.sort_desc f l.
Proof.
  induction l as [|x l [IH1 IH2]]; simpl; [by split |].
  split.
  - by apply (insert_desc_Forall fst).
  - by rewrite insert_desc_decorated, IH2.
Qed.

Lemma sorted_reverse_total (key : A → result nat) (s : list A) :
  Forall (λ a, key a = Ok (f a)) s →
  Py.sorted_reverse s key = Ok (Py.sort_desc f s).
Proof.
  intros Hs. unfold Py.sorted_reverse.
  rewrite (mapM_total key f) by done. simpl.
  unfold mret, result_ret. f_equal. apply sort_desc_decorated.
Qed.

End SortFacts.

Section ArgmaxFacts.

Lemma argmax_from_spec (pre l : list nat) bi bv :
  pre !! bi = Some bv →
  Forall (λ v, v ≤ bv) pre →
  ∃ v, (pre ++ l) !! Py.argmax_from bi bv (length pre) l = Some v ∧
       Forall (λ w, w ≤ v) (pre ++ l).
Proof.
  revert pre bi bv. induction l as [|x l IH]; intros pre bi bv Hbi Hall; simpl.
  - exists bv. rewrite app_nil_r. done.
  - replace (pre ++ x :: l) with ((pre ++ [x]) ++ l) by by rewrite <- app_assoc.
    replace (S (length pre)) with (length (pre ++ [x]))
      by (rewrite length_app; simpl; lia).
    destruct (bv <? x) eqn:Hx.
    + apply Nat.ltb_lt in Hx. apply IH.
      * rewrite lookup_app_r by done. by rewrite Nat.sub_diag.
      * apply Forall_app. split; [| by repeat constructor].
        eapply Forall_impl; [exact Hall |]. intros; simpl in *; lia.
    + apply Nat.ltb_ge in Hx. apply IH.
      * rewrite lookup_app_l; [done |]. by eapply lookup_lt_Some.
      * apply Forall_app. split; [done | by repeat constructor].
Qed.

(** [np.argmax] returns a position that holds a largest value. *)
Lemma np_argmax_spec (l : list nat) :
  l ≠ [] →
  ∃ m v, Py.np_argmax l = Ok m ∧ l !! m = Some v ∧ Forall (λ w, w ≤ v) l.
Proof.
  destruct l as [|x l]; [done |]. intros _. simpl.
  destruct (argmax_from_spec [x] l 0 x) as (v & Hv & Hall);
    [done | by repeat constructor |].
  eauto.
Qed.

End ArgmaxFacts.

Section ListFacts.
Context {A : Type}.

Lemma elem_of_concat (ls : list (list A)) x :
  x ∈ concat ls ↔ ∃ l, l ∈ ls ∧ x ∈ l.
Proof.
  rewrite list_elem_of_In, in_concat.
  split; intros (l & H1 & H2); exists l; by rewrite ?list_elem_of_In in *.
Qed.

(** The swap of line 163 permutes the list of batches. *)
Lemma swap_first_perm (l : list A) m a b :
  l !! m = Some a → l !! 0 = Some b →
  <[m := b]> (<[0 := a]> l) ≡ₚ l.
Proof.
  intros Hm H0. destruct l as [|b' l]; [done |].
  simpl in H0. injection H0 as ->.
  destruct m as [|m]; simpl in *.
  - by injection Hm as ->.
  - rewrite <- (take_drop_middle l m a) at 2 by done.
    rewrite insert_take_drop by (by eapply lookup_lt_Some).
    rewrite <- !Permutation_middle. apply perm_swap.
Qed.

Lemma swap_first_head (l : list A) m a b :
  l !! m = Some a → l !! 0 = Some b →
  <[m := b]> (<[0 := a]> l) !! 0 = Some a.
Proof.
  intros Hm H0. destruct l as [|b' l]; [done |].
  simpl in H0. injection H0 as ->.
  destruct m as [|m]; simpl in *; [| done].
  by injection Hm as ->.
Qed.

Lemma Forall2_lookup_seq (x ys : list A) :
  Forall2 (λ i y, x !! i = Some y) (seq 0 (length x)) ys → ys = x.
Proof.
  intros H. apply list_eq. intros i.
  destruct (decide (i < length x)) as [Hlt|Hge].
  - assert (seq 0 (length x) !! i = Some i) as Hi by by apply lookup_seq_lt.
    destruct (Forall2_lookup_l _ _ _ _ _ H Hi) as (y & -> & Hy). done.
  - rewrite (lookup_ge_None_2 x) by lia.
    apply lookup_ge_None_2. apply Forall2_length in H.
    rewrite length_seq in H. lia.
Qed.

(** Taking the entries of [x] in the order of a permutation of its
    positions gives a permutation of [x]. *)
Lemma mapM_index_perm (x : list A) (p : list nat) :
  p ≡ₚ seq 0 (length x) →
  ∃ ys, mapM (Py.index x) p = Ok ys ∧ ys ≡ₚ x.
Proof.
  intros Hp.
  assert (∃ ys, Forall2 (λ i y, x !! i = Some y) p ys) as [ys Hys].
  { assert (Forall (λ i, i < length x) p) as Hlt.
    { rewrite Hp. apply Forall_forall. intros i Hi.
      apply elem_of_seq in Hi. lia. }
    clear Hp. induction Hlt as [|i p Hi _ [ys IH]]; [by exists [] |].
    destruct (lookup_lt_is_Some_2 x i Hi) as [y Hy].
    exists (y :: ys). by constructor. }
  exists ys. split.
  - apply mapM_Forall2. eapply Forall2_impl; [exact Hys |].
    intros i y Hy. unfold Py.index. by rewrite Hy.
  - destruct (Permutation_Forall2 Hp Hys) as (zs & Hperm & Hzs).
    apply Forall2_lookup_seq in Hzs. by subst zs.
Qed.

End ListFacts.

(** * The sortish sampler *)

Section SamplerFacts.
Context {A : Type} (len : A → nat).
Context {rng : Type} (np_random_permutation : nat → rng → list nat * rng).
Context (self : SortishSampler.t (A := A)).

Local Abbreviation N := (length (SortishSampler.data_source self)).
Local Abbreviation b := (Z.to_nat (SortishSampler.bs self)).
Local Abbreviation key := (SortishSampler.key len self).
Local Abbreviation key_of := (SortishSampler.key_of len self).
Local Abbreviation first_key := (SortishSampler.first_key len self).
Local Abbreviation rng_valid := (SortishSampler.rng_valid np_random_permutation).

(** The sequence [sort_idx] of line 159 for the permutation [idxs]. *)
Local Abbreviation sorted_chunks idxs :=
  (concat (map (Py.sort_desc key_of) (Py.chunks (b * 50) idxs))).

Lemma key_in_range i : i < N → key i = Ok (key_of i).
Proof.
  intros Hi. unfold SortishSampler.key, SortishSampler.key_of, Py.index.
  destruct (lookup_lt_is_Some_2 _ _ Hi) as [x ->]. done.
Qed.

Lemma key_Forall (s : list nat) :
  Forall (λ i, i < N) s → Forall (λ i, key i = Ok (key_of i)) s.
Proof.
  intros Hs. eapply Forall_impl; [exact Hs |]. intros i. apply key_in_range.
Qed.

Lemma chunked_ok {B} (l : list B) (sz : Z) :
  (1 ≤ sz)%Z → SortishSampler.chunked l sz = Ok (Py.chunks (Z.to_nat sz) l).
Proof.
  intros Hsz. unfold SortishSampler.chunked, Py.range.
  destruct (Z.eqb_spec sz 0) as [|_]; [lia |].
  destruct (Z.ltb_spec sz 0) as [|_]; [lia |].
  simpl. unfold mret, result_ret, Py.chunks. by rewrite map_map.
Qed.

Lemma elem_of_chunks {B} sz (l c : list B) e :
  0 < sz → c ∈ Py.chunks sz l → e ∈ c → e ∈ l.
Proof.
  intros Hsz Hc He. rewrite <- (concat_chunks sz l) by done.
  apply elem_of_concat. eauto.
Qed.

Lemma Forall_chunks {B} (P : B → Prop) sz (l c : list B) :
  0 < sz → Forall P l → c ∈ Py.chunks sz l → Forall P c.
Proof.
  intros Hsz Hl Hc. apply Forall_forall. intros e He.
  rewrite Forall_forall in Hl. apply Hl. by eapply elem_of_chunks.
Qed.

Lemma chunks_not_nil {B} sz (l : list B) : 0 < sz → l ≠ [] → Py.chunks sz l ≠ [].
Proof. intros Hsz Hl. by rewrite chunks_cons. Qed.

Lemma sort_chunks_ok (idxs : list nat) :
  Forall (λ i, i < N) idxs → idxs ≠ [] → (1 ≤ SortishSampler.bs self)%Z →
  SortishSampler.sort_chunks len self idxs = Ok (sorted_chunks idxs).
Proof.
  intros Hin Hne Hbs. unfold SortishSampler.sort_chunks.
  rewrite chunked_ok by lia.
  rewrite Z2Nat.inj_mul by lia. change (Z.to_nat 50) with 50.
  simpl. assert (0 < b * 50) as Hsz by lia.
  rewrite (mapM_total _ (Py.sort_desc key_of)).
  - unfold Py.np_concatenate.
    pose proof (chunks_not_nil (b * 50) idxs Hsz Hne) as Hck.
    destruct (Py.chunks (b * 50) idxs); done.
  - apply Forall_forall. intros c Hc.
    apply sorted_reverse_total, key_Forall. by eapply Forall_chunks.
Qed.

Lemma batches_max_first_spec (sort_idx : list nat) :
  Forall (λ i, i < N) sort_idx → sort_idx ≠ [] →
  (1 ≤ SortishSampler.bs self)%Z →
  ∃ m a b0 f,
    SortishSampler.batches_max_first len self sort_idx
      = Ok (<[m := b0]> (<[0 := a]> (Py.chunks b sort_idx))) ∧
    Py.chunks b sort_idx !! m = Some a ∧
    Py.chunks b sort_idx !! 0 = Some b0 ∧
    a !! 0 = Some f ∧
    ∀ c e, c ∈ Py.chunks b sort_idx → c !! 0 = Some e → key_of e ≤ key_of f.
Proof.
  intros Hin Hne Hbs. unfold SortishSampler.batches_max_first.
  rewrite chunked_ok by lia. simpl.
  assert (0 < b) as Hsz by lia.
  set (cks := Py.chunks b sort_idx).
  assert (cks ≠ []) as Hcks by by apply chunks_not_nil.
  rewrite (mapM_total _ first_key).
  2:{ apply Forall_forall. intros c Hc.
      pose proof (chunks_nonempty _ _ _ Hsz Hc) as Hcne.
      destruct c as [|e c]; [done |]. simpl.
      unfold SortishSampler.first_key. simpl. apply key_in_range.
      assert (Forall (λ i, i < N) (e :: c)) as He by by eapply Forall_chunks.
      by inversion He. }
  simpl.
  destruct (np_argmax_spec (map first_key cks)) as (m & v & -> & Hm & Hall).
  { by destruct cks. }
  simpl. rewrite list_lookup_fmap in Hm.
  destruct (cks !! m) as [a|] eqn:Ha; [| done].
  simpl in Hm. injection Hm as <-.
  destruct (cks !! 0) as [b0|] eqn:Hb0; [| by destruct cks].
  unfold Py.index. rewrite Ha, Hb0. simpl.
  assert (a ∈ cks) as Hain by (apply list_elem_of_lookup; eauto).
  pose proof (chunks_nonempty _ _ _ Hsz Hain) as Hane.
  destruct a as [|f a]; [done |].
  exists m, (f :: a), b0, f. repeat split; try done.
  intros c e Hc He. rewrite Forall_forall in Hall.
  specialize (Hall (first_key c)).
  unfold SortishSampler.first_key in Hall. rewrite He in Hall. simpl in Hall.
  apply Hall. apply list_elem_of_fmap. exists c. split; [| done].
  by rewrite He.
Qed.

(** Every element of [sort_idx] is dominated by the first element of one
    of the batches of [bs]: the chunks of [50 * bs] begin on a batch
    boundary and each begins with its largest key. *)
Lemma sorted_chunks_dominated (idxs : list nat) e :
  0 < b → e ∈ sorted_chunks idxs →
  ∃ c f, c ∈ Py.chunks b (sorted_chunks idxs) ∧ c !! 0 = Some f ∧
         key_of e ≤ key_of f.
Proof.
  intros Hb. revert idxs e.
  apply (chunks_ind (b * 50) (λ idxs, ∀ e, e ∈ sorted_chunks idxs → _));
    [lia | |].
  - intros e. rewrite chunks_nil. simpl. by intros ?%elem_of_nil.
  - intros idxs Hne IH e. rewrite chunks_cons by (lia || done).
    simpl. set (s1 := Py.sort_desc key_of (take (b * 50) idxs)).
    assert (take (b * 50) idxs ≠ []) as Htake.
    { destruct idxs; [done |]. destruct b; [lia | done]. }
    assert (s1 ≠ []) as Hs1 by by apply sort_desc_nonempty.
    assert (∀ x, x ∈ s1 →
              ∃ c f, c ∈ Py.chunks b s1 ∧ c !! 0 = Some f ∧ key_of x ≤ key_of f)
      as Hhead.
    { intros x Hx.
      assert (x ∈ take (b * 50) idxs) as Hx'
        by (unfold s1 in Hx; by rewrite sort_desc_perm in Hx).
      destruct s1 as [|f s1'] eqn:Es1; [done |].
      exists (take b (f :: s1')), f. split; [| split].
      - rewrite chunks_cons by done. apply elem_of_cons. by left.
      - destruct b; [lia | done].
      - eapply sort_desc_head; [exact Es1 | exact Hx']. }
    destruct (decide (drop (b * 50) idxs = [])) as [Hd|Hd].
    + rewrite Hd, chunks_nil. simpl. rewrite app_nil_r. apply Hhead.
    + assert (length s1 = 50 * b) as Hlen.
      { unfold s1. rewrite length_sort_desc, length_take.
        assert (length (drop (b * 50) idxs) ≠ 0) as Hl
          by (by destruct (drop (b * 50) idxs)).
        rewrite length_drop in Hl. lia. }
      rewrite (chunks_app b 50) by done.
      intros [He|He]%elem_of_app.
      * destruct (Hhead e He) as (c & f & Hc & Hf & Hle).
        exists c, f. rewrite elem_of_app. eauto.
      * destruct (IH e He) as (c & f & Hc & Hf & Hle).
        exists c, f. rewrite elem_of_app. eauto.
Qed.

Lemma sorted_chunks_perm (idxs : list nat) :
  0 < b → sorted_chunks idxs ≡ₚ idxs.
Proof.
  intros Hb. rewrite <- (concat_chunks (b * 50) idxs) at 2 by lia.
  induction (Py.chunks (b * 50) idxs) as [|c cks IH]; simpl; [done |].
  by rewrite sort_desc_perm, IH.
Qed.

(** One run of [__iter__], phase by phase. *)
Lemma iter_unfold g idxs g1 :
  rng_valid →
  np_random_permutation N g = (idxs, g1) →
  1 ≤ N → (1 ≤ SortishSampler.bs self)%Z →
  ∃ first rest shuffled g' f,
    SortishSampler.__iter__ len np_random_permutation self g
      = (Ok (first ++ concat shuffled), g') ∧
    first :: rest ≡ₚ Py.chunks b (sorted_chunks idxs) ∧
    shuffled ≡ₚ rest ∧
    first !! 0 = Some f ∧
    (∀ c e, c ∈ Py.chunks b (sorted_chunks idxs) → c !! 0 = Some e →
            key_of e ≤ key_of f) ∧
    (rest = [] → g' = g1).
Proof.
  intros Hrng Hdraw HN Hbs.
  assert (0 < b) as Hb by lia.
  assert (idxs ≡ₚ seq 0 N) as Hidxs.
  { specialize (Hrng N g). by rewrite Hdraw in Hrng. }
  assert (Forall (λ i, i < N) idxs) as Hin.
  { perm_bounds Hidxs. }
  assert (idxs ≠ []) as Hne.
  { intros ->. apply Permutation_length in Hidxs.
    rewrite length_seq in Hidxs. simpl in Hidxs. lia. }
  assert (Forall (λ i, i < N) (sorted_chunks idxs)) as Hin'
    by by rewrite sorted_chunks_perm.
  assert (sorted_chunks idxs ≠ []) as Hne'.
  { intros Hs. apply Hne. apply Permutation_nil.
    by rewrite <- Hs, sorted_chunks_perm. }
  destruct (batches_max_first_spec _ Hin' Hne' Hbs)
    as (m & a & b0 & f & Hbmf & Hm & H0 & Hf & Hmax).
  pose proof (swap_first_perm _ _ _ _ Hm H0) as Hswap.
  pose proof (swap_first_head _ _ _ _ Hm H0) as Hhead.
  remember (<[m:=b0]> (<[0:=a]> (Py.chunks b (sorted_chunks idxs)))) as cks.
  destruct cks as [|first rest]; [done |].
  simpl in Hhead. injection Hhead as ->.
  unfold SortishSampler.__iter__, SortishSampler.permutation_int.
  run_bind. rewrite Hdraw.
  unfold mbind at 1, M_bind, lift. rewrite sort_chunks_ok by done.
  run_bind. rewrite Hbmf.
  run_bind.
  destruct rest as [|r rest].
  - exists a, [], [], g1, f. simpl. done.
  - change (1 <? length (a :: r :: rest)) with true.
    change (drop 1 (a :: r :: rest)) with (r :: rest). cbv iota.
    unfold SortishSampler.permutation_seq, SortishSampler.permutation_int.
    unfold mbind at 1 2 3, M_bind, lift.
    destruct (np_random_permutation (length (r :: rest)) g1) as [p g2] eqn:Hp.
    assert (p ≡ₚ seq 0 (length (r :: rest))) as Hpp.
    { specialize (Hrng (length (r :: rest)) g1). by rewrite Hp in Hrng. }
    destruct (mapM_index_perm (r :: rest) p Hpp) as (ys & -> & Hys).
    assert (ys ≠ []) as Hysne.
    { intros ->. by apply Permutation_nil_cons in Hys. }
    exists a, (r :: rest), ys, g2, f.
    unfold Py.np_concatenate. destruct ys as [|y ys]; [done |].
    simpl. done.
Qed.

End SamplerFacts.

Section ListPermFacts.
Context {A : Type}.

Lemma concat_perm (ls ls' : list (list A)) :
  ls ≡ₚ ls' → concat ls ≡ₚ concat ls'.
Proof.
  induction 1 as [|l ls ls' _ IH|l1 l2 ls|ls1 ls2 ls3 _ IH1 _ IH2]; simpl.
  - done.
  - by rewrite IH.
  - rewrite !app_assoc. by rewrite (Permutation_app_comm l2 l1).
  - by rewrite IH1.
Qed.

Lemma StronglySorted_weaken (R R' : A → A → Prop) (P : A → Prop) (l : list A) :
  (∀ x y, P x → P y → R x y → R' x y) →
  Forall P l → StronglySorted R l → StronglySorted R' l.
Proof.
  intros HR Hl Hs. induction Hs as [|x l Hs IH Hx]; [constructor |].
  apply Forall_cons in Hl as [Hpx Hl].
  constructor; [by apply IH |].
  rewrite Forall_forall in *. intros y Hy. apply HR; auto.
Qed.

End ListPermFacts.

Section SamplerClaims.
Context {A : Type} (len : A → nat).
Context {rng : Type} (np_random_permutation : nat → rng → list nat * rng).
Context (self : SortishSampler.t (A := A)).

Local Abbreviation N := (length (SortishSampler.data_source self)).
Local Abbreviation b := (Z.to_nat (SortishSampler.bs self)).
Local Abbreviation key := (SortishSampler.key len self).
Local Abbreviation key_of := (SortishSampler.key_of len self).
Local Abbreviation rng_valid := (SortishSampler.rng_valid np_random_permutation).
Local Abbreviation iter := (SortishSampler.__iter__ len np_random_permutation self).
Local Abbreviation sorted_chunks idxs :=
  (concat (map (Py.sort_desc key_of) (Py.chunks (b * 50) idxs))).

(** [i] may come before [j] in the order [sorted(..., key=self.key,
    reverse=True)] produces: both keys are defined and that of [j] is not
    larger. *)
Local Abbreviation key_desc i j :=
  (∃ ki kj, key i = Ok ki ∧ key j = Ok kj ∧ kj ≤ ki).

Lemma iter_output g :
  rng_valid → 1 ≤ N → (1 ≤ SortishSampler.bs self)%Z →
  ∃ out g' f,
    iter g = (Ok out, g') ∧
    out ≡ₚ sorted_chunks (np_random_permutation N g).1 ∧
    out !! 0 = Some f ∧
    ∀ e, e ∈ out → key_of e ≤ key_of f.
Proof.
  intros Hrng HN Hbs.
  destruct (np_random_permutation N g) as [idxs g1] eqn:Hdraw.
  destruct (iter_unfold len np_random_permutation self g idxs g1 Hrng Hdraw HN Hbs)
    as (first & rest & shuffled & g' & f & Hrun & Hck & Hsh & Hf & Hmax & _).
  assert (0 < b) as Hb by lia.
  assert (first ++ concat shuffled ≡ₚ sorted_chunks idxs) as Hout.
  { rewrite <- (concat_chunks b (sorted_chunks idxs)) by done.
    rewrite <- (concat_perm _ _ Hck). simpl.
    by rewrite (concat_perm _ _ Hsh). }
  exists (first ++ concat shuffled), g', f. simpl. repeat split; try done.
  - destruct first; [done |]. simpl in *. done.
  - intros e He. rewrite Hout in He.
    destruct (sorted_chunks_dominated len self idxs e Hb He)
      as (c & f' & Hc & Hf' & Hle).
    specialize (Hmax c f' Hc Hf'). lia.
Qed.

Lemma iter_output_range g :
  rng_valid → 1 ≤ N → (1 ≤ SortishSampler.bs self)%Z →
  ∃ out g', iter g = (Ok out, g') ∧ out ≡ₚ seq 0 N.
Proof.
  intros Hrng HN Hbs.
  destruct (iter_output g Hrng HN Hbs) as (out & g' & f & Hrun & Hout & _).
  exists out, g'. split; [done |].
  rewrite Hout, (sorted_chunks_perm len self) by lia. apply Hrng.
Qed.

(** C1: for a data source of [N >= 1] items and [bs >= 1], the indices one
    call of [__iter__] produces are a permutation of [range(N)]: there are
    [N] of them, none is repeated, each occurs exactly once and nothing
    outside [0 .. N-1] occurs. *)
Theorem sortish_iter_permutation g :
  rng_valid → 1 ≤ N → (1 ≤ SortishSampler.bs self)%Z →
  ∃ out g',
    iter g = (Ok out, g') ∧
    out ≡ₚ seq 0 N ∧
    length out = N ∧
    NoDup out ∧
    (∀ i, i ∈ out ↔ i < N) ∧
    (∀ i, i < N → count_occ Nat.eq_dec out i = 1).
Proof.
  intros Hrng HN Hbs.
  destruct (iter_output_range g Hrng HN Hbs) as (out & g' & Hrun & Hperm).
  assert (NoDup out) as Hnd by (rewrite Hperm; apply NoDup_seq).
  assert (∀ i, i ∈ out ↔ i < N) as Hmem.
  { intros i. rewrite Hperm, elem_of_seq. lia. }
  exists out, g'. repeat split; try done.
  - by rewrite Hperm, length_seq.
  - by apply Hmem.
  - by apply Hmem.
  - intros i Hi. apply NoDup_count_occ'.
    + by apply NoDup_ListNoDup.
    + apply list_elem_of_In. by apply Hmem.
Qed.

(** C2: for [N >= 1] and [bs >= 1], the first index of the produced order
    (the first element of the first batch) has a key at least as large as
    the key of the first element of every batch of [bs] taken from the
    produced order; no batch begins with a strictly larger key.  The first
    key is in fact the largest key of the whole order. *)
Theorem sortish_first_batch_max_key g :
  rng_valid → 1 ≤ N → (1 ≤ SortishSampler.bs self)%Z →
  ∃ out g' first kf,
    iter g = (Ok out, g') ∧
    out !! 0 = Some first ∧
    key first = Ok kf ∧
    (∀ batch e, batch ∈ Py.chunks b out → batch !! 0 = Some e →
                ∃ ke, key e = Ok ke ∧ ke ≤ kf) ∧
    (∀ e, e ∈ out → ∃ ke, key e = Ok ke ∧ ke ≤ kf).
Proof.
  intros Hrng HN Hbs.
  destruct (iter_output g Hrng HN Hbs) as (out & g' & f & Hrun & Hout & Hf & Hmax).
  assert (out ≡ₚ seq 0 N) as Hperm.
  { rewrite Hout, (sorted_chunks_perm len self) by lia. apply Hrng. }
  assert (∀ e, e ∈ out → e < N) as Hlt.
  { intros e. rewrite Hperm, elem_of_seq. lia. }
  assert (f ∈ out) as Hfin by (apply list_elem_of_lookup; eauto).
  assert (∀ e, e ∈ out → ∃ ke, key e = Ok ke ∧ ke ≤ key_of f) as Hall.
  { intros e He. exists (key_of e). split; [| by apply Hmax].
    apply key_in_range. by apply Hlt. }
  exists out, g', f, (key_of f). repeat split; try done.
  - apply key_in_range. by apply Hlt.
  - intros batch e Hb He. apply Hall.
    eapply (elem_of_chunks b out batch); [lia | done |].
    apply list_elem_of_lookup. eauto.
Qed.

(** The first phase of [__iter__]: for [bs >= 1], the permutation [idxs] is
    cut into contiguous chunks of exactly [50 * bs] indices, the last one
    possibly shorter, and each chunk is sorted in descending order of the
    key, which is [len] of the data-source item at the index; for a data
    source that is not empty [sort_idx] is their concatenation. *)
Lemma megabatches_sorted (idxs : list nat) :
  idxs ≡ₚ seq 0 N → (1 ≤ SortishSampler.bs self)%Z →
  ∃ ck_idx sorted,
    SortishSampler.chunked idxs (SortishSampler.bs self * 50) = Ok ck_idx ∧
    concat ck_idx = idxs ∧
    (∀ j c, ck_idx !! j = Some c →
       c = Py.slice idxs (j * (50 * b)) (j * (50 * b) + 50 * b) ∧
       1 ≤ length c ≤ 50 * b ∧
       (S j < length ck_idx → length c = 50 * b)) ∧
    mapM (λ s, Py.sorted_reverse s key) ck_idx = Ok sorted ∧
    Forall2 (λ c s, s ≡ₚ c ∧ StronglySorted (λ i j, key_desc i j) s)
            ck_idx sorted ∧
    (∀ i x, SortishSampler.data_source self !! i = Some x →
            key i = Ok (len x)) ∧
    (1 ≤ N → SortishSampler.sort_chunks len self idxs = Ok (concat sorted)).
Proof.
  intros Hperm Hbs.
  assert (0 < b * 50) as Hsz by lia.
  assert (Forall (λ i, i < N) idxs) as Hin.
  { perm_bounds Hperm. }
  exists (Py.chunks (b * 50) idxs),
         (map (Py.sort_desc key_of) (Py.chunks (b * 50) idxs)).
  split; [| split; [| split; [| split; [| split; [| split]]]]].
  - rewrite (chunked_ok idxs) by lia.
    rewrite Z2Nat.inj_mul by lia. done.
  - by apply concat_chunks.
  - intros j c Hj. replace (50 * b) with (b * 50) by lia.
    apply chunks_lookup in Hj as [Hlt ->]; [| done].
    rewrite slice_chunk_length, length_chunks.
    split; [done |]. split; [lia |].
    intros HSj. apply ceil_div_lt in HSj; [| done]. lia.
  - apply mapM_total. apply Forall_forall. intros c Hc.
    apply sorted_reverse_total, key_Forall. by eapply Forall_chunks.
  - apply Forall2_fmap_r, Forall_Forall2_diag, Forall_forall.
    intros c Hc. split; [apply sort_desc_perm |].
    eapply (StronglySorted_weaken (Py.desc key_of) _ (λ i, i < N)).
    + intros i j Hi Hj Hij. exists (key_of i), (key_of j).
      by rewrite !(key_in_range len self).
    + rewrite sort_desc_perm. by eapply Forall_chunks.
    + apply sort_desc_sorted.
  - intros i x Hx. unfold SortishSampler.key, Py.index. by rewrite Hx.
  - intros HN. apply sort_chunks_ok; [done | | done].
    intros ->. apply Permutation_length in Hperm.
    rewrite length_seq in Hperm. simpl in Hperm. lia.
Qed.

(** C7: with [1 <= N <= bs] there is a single batch: [__iter__] returns
    without an exception, draws no second permutation (the generator is
    left as the first draw left it), and the produced order is that single
    batch, the whole permutation sorted by descending key. *)
Theorem sortish_single_batch g :
  rng_valid → 1 ≤ N → (Z.of_nat N ≤ SortishSampler.bs self)%Z →
  let idxs := (np_random_permutation N g).1 in
  let batch := Py.sort_desc key_of idxs in
  iter g = (Ok batch, (np_random_permutation N g).2) ∧
  SortishSampler.sort_chunks len self idxs = Ok batch ∧
  SortishSampler.chunked batch (SortishSampler.bs self) = Ok [batch].
Proof.
  intros Hrng HN HNb.
  assert (1 ≤ SortishSampler.bs self)%Z as Hbs by lia.
  destruct (np_random_permutation N g) as [idxs g1] eqn:Hdraw. simpl.
  assert (idxs ≡ₚ seq 0 N) as Hperm.
  { specialize (Hrng N g). by rewrite Hdraw in Hrng. }
  assert (length idxs = N) as Hlen by by rewrite Hperm, length_seq.
  assert (idxs ≠ []) as Hne by (intros ->; simpl in *; lia).
  assert (Forall (λ i, i < N) idxs) as Hin.
  { perm_bounds Hperm. }
  assert (sorted_chunks idxs = Py.sort_desc key_of idxs) as Hs.
  { rewrite chunks_single by (done || lia). simpl. apply app_nil_r. }
  assert (Py.chunks b (Py.sort_desc key_of idxs) = [Py.sort_desc key_of idxs])
    as Hone.
  { apply chunks_single; [by apply sort_desc_nonempty |].
    rewrite length_sort_desc. lia. }
  destruct (iter_unfold len np_random_permutation self g idxs g1 Hrng Hdraw HN Hbs)
    as (first & rest & shuffled & g' & f & Hrun & Hck & Hsh & _ & _ & Hg).
  rewrite Hs, Hone in Hck. apply Permutation_singleton_r in Hck.
  injection Hck as -> ->. apply Permutation_nil_r in Hsh. subst shuffled.
  rewrite Hg in Hrun by done. simpl in Hrun. rewrite app_nil_r in Hrun.
  split; [done |]. split.
  - rewrite <- Hs. by apply sort_chunks_ok.
  - rewrite (chunked_ok _ _ Hbs). by rewrite Hone.
Qed.

End SamplerClaims.

(** * Texts and white space *)

Section StringFacts.

Lemma string_app_cons c (a d : string) : String c a +:+ d = String c (a +:+ d).
Proof. reflexivity. Qed.

Lemma string_app_assoc (a d e : string) : (a +:+ d) +:+ e = a +:+ (d +:+ e).
Proof.
  induction a as [|c a IH]; [reflexivity |].
  rewrite !string_app_cons. by rewrite IH.
Qed.

Lemma string_app_nil_r (s : string) : s +:+ "" = s.
Proof. induction s as [|c s IH]; [reflexivity |]. rewrite string_app_cons. by rewrite IH. Qed.

Lemma string_length_app (a c : string) :
  String.length (a +:+ c) = String.length a + String.length c.
Proof.
  induction a as [|x a IH]; [reflexivity |].
  rewrite string_app_cons. simpl. by rewrite IH.
Qed.

Lemma string_app_inj_r (a a' c : string) : a +:+ c = a' +:+ c → a = a'.
Proof.
  revert a'. induction a as [|x a IH]; intros [|y a'] H.
  - done.
  - apply (f_equal String.length) in H.
    rewrite (string_length_app (String y a')) in H. simpl in H.
    change (String.length ("" +:+ c)) with (String.length c) in H. lia.
  - apply (f_equal String.length) in H.
    rewrite (string_length_app (String x a)) in H. simpl in H.
    change (String.length ("" +:+ c)) with (String.length c) in H. lia.
  - rewrite !string_app_cons in H. injection H as -> H. f_equal. by apply IH.
Qed.

Lemma string_app_inj_l (a c c' : string) : a +:+ c = a +:+ c' → c = c'.
Proof.
  induction a as [|x a IH]; [done |].
  rewrite !string_app_cons. intros [= H]. by apply IH.
Qed.

Lemma string_app_ne_self (s : string) c r : s +:+ String c r ≠ s.
Proof.
  intros H. apply (f_equal String.length) in H.
  rewrite string_length_app in H. simpl in H. lia.
Qed.


End StringFacts.

Section StripFacts.

Lemma is_space_In (ch : string) : is_space ch = true ↔ In ch space_chars.
Proof.
  unfold is_space. rewrite existsb_exists. split.
  - intros (x & Hx & ->%String.eqb_eq). done.
  - intros H. exists ch. split; [done | apply String.eqb_refl].
Qed.

Lemma strip_prefix_Some (p s r : string) : strip_prefix p s = Some r ↔ s = p +:+ r.
Proof.
  revert s. induction p as [|a p IH]; intros s; simpl.
  - split; [by intros [= ->] | by intros ->].
  - destruct s as [|b s].
    + split; [done |]. rewrite string_app_cons. done.
    + rewrite string_app_cons. destruct (Ascii.eqb a b) eqn:E.
      * apply Ascii.eqb_eq in E as ->. rewrite IH. split; [by intros -> | by intros [= ->]].
      * apply Ascii.eqb_neq in E. split; [done | intros [= -> _]; done].
Qed.

Lemma strip_suffix_Some (p s r : string) : strip_suffix p s = Some r ↔ s = r +:+ p.
Proof.
  revert r. induction s as [|c s IH]; intros r.
  - simpl. destruct p as [|a p]; simpl.
    + split; [by intros [= <-] |]. destruct r; [done | by rewrite string_app_cons].
    + split; [done |]. destruct r; [done | by rewrite string_app_cons].
  - cbn [strip_suffix]. destruct (String.eqb (String c s) p) eqn:E.
    + apply String.eqb_eq in E as <-. split.
      * by intros [= <-].
      * intros H. destruct r as [|x r]; [done |]. exfalso.
        apply (f_equal String.length) in H.
        rewrite (string_length_app (String x r)) in H. simpl in H. lia.
    + apply String.eqb_neq in E.
      destruct (strip_suffix p s) as [r'|]; simpl; split.
      * intros [= <-]. rewrite string_app_cons. f_equal. by apply IH.
      * destruct r as [|x r]; [intros H; by destruct E |].
        rewrite string_app_cons. intros [= -> H]. apply IH in H. by injection H as ->.
      * done.
      * destruct r as [|x r]; [intros H; by destruct E |].
        rewrite string_app_cons. intros [= -> H]. by apply IH in H.
Qed.

Lemma first_match_Some {A} (f : string → option A) l r :
  first_match f l = Some r → ∃ ch, In ch l ∧ f ch = Some r.
Proof.
  induction l as [|ch l IH]; simpl; [done |].
  destruct (f ch) as [x|] eqn:E.
  - intros [= ->]. eauto.
  - intros (ch' & ? & ?)%IH. eauto.
Qed.

Lemma first_match_None {A} (f : string → option A) l :
  first_match f l = None ↔ ∀ ch, In ch l → f ch = None.
Proof.
  induction l as [|ch l IH]; simpl.
  - split; [by intros _ ? [] | done].
  - destruct (f ch) as [x|] eqn:E.
    + split; [done |]. intros H. specialize (H ch (or_introl eq_refl)). congruence.
    + rewrite IH. split.
      * intros H ch' [<- | Hin]; [done | by apply H].
      * intros H ch' Hin. apply H. by right.
Qed.

Lemma drop_space_Some (s r : string) :
  drop_space s = Some r → ∃ ch, is_space ch = true ∧ s = ch +:+ r.
Proof.
  intros (ch & Hin & H)%first_match_Some. exists ch.
  split; [by apply is_space_In | by apply strip_prefix_Some].
Qed.

Lemma drop_space_None (s : string) :
  drop_space s = None ↔ ∀ ch r, is_space ch = true → s ≠ ch +:+ r.
Proof.
  unfold drop_space. rewrite first_match_None. split.
  - intros H ch r Hch%is_space_In Hs%strip_prefix_Some. rewrite (H ch Hch) in Hs. done.
  - intros H ch Hch%is_space_In.
    destruct (strip_prefix ch s) as [r|] eqn:E; [| done].
    apply strip_prefix_Some in E. by destruct (H ch r).
Qed.

Lemma drop_space_end_Some (s r : string) :
  drop_space_end s = Some r → ∃ ch, is_space ch = true ∧ s = r +:+ ch.
Proof.
  intros (ch & Hin & H)%first_match_Some. exists ch.
  split; [by apply is_space_In | by apply strip_suffix_Some].
Qed.

Lemma drop_space_end_None (s : string) :
  drop_space_end s = None ↔ ∀ ch r, is_space ch = true → s ≠ r +:+ ch.
Proof.
  unfold drop_space_end. rewrite first_match_None. split.
  - intros H ch r Hch%is_space_In Hs%strip_suffix_Some. rewrite (H ch Hch) in Hs. done.
  - intros H ch Hch%is_space_In.
    destruct (strip_suffix ch s) as [r|] eqn:E; [| done].
    apply strip_suffix_Some in E. by destruct (H ch r).
Qed.

(** The table of white-space characters: each is one UTF-8 character, and
    none begins or ends with another. *)
Lemma space_chars_utf8 : forallb utf8_char space_chars = true.
Proof. vm_compute. reflexivity. Qed.



Lemma space_char_utf8 (ch : string) : is_space ch = true → utf8_char ch = true.
Proof.
  intros H%is_space_In. pose proof space_chars_utf8 as Hall.
  rewrite forallb_forall in Hall. by apply Hall.
Qed.

Lemma space_char_length (ch : string) : is_space ch = true → 0 < String.length ch.
Proof. intros H%space_char_utf8. destruct ch; [done | simpl; lia]. Qed.





Lemma all_space_nil : all_space "".
Proof. exists []. split; [constructor | reflexivity]. Qed.

Lemma all_space_app (a b : string) : all_space a → all_space b → all_space (a +:+ b).
Proof.
  intros (ca & Ha & ->) (cb & Hb & ->). exists (ca ++ cb). split.
  - by apply Forall_app.
  - clear Ha Hb. induction ca as [|c ca IH]; [done |].
    simpl. rewrite string_app_assoc. by rewrite IH.
Qed.

Lemma all_space_char (ch : string) : is_space ch = true → all_space ch.
Proof.
  intros H. exists [ch]. split; [by constructor |]. simpl. by rewrite string_app_nil_r.
Qed.


Lemma lstrip_go_spec (fuel : nat) (s : string) :
  String.length s ≤ fuel →
  ∃ ws, all_space ws ∧ s = ws +:+ lstrip_go fuel s ∧ drop_space (lstrip_go fuel s) = None.
Proof.
  revert s. induction fuel as [|n IH]; intros s Hlen.
  - destruct s; [| simpl in Hlen; lia]. exists "". split; [apply all_space_nil |].
    split; [done |]. by vm_compute.
  - simpl. destruct (drop_space s) as [r|] eqn:E.
    + apply drop_space_Some in E as (ch & Hch & ->).
      pose proof (space_char_length ch Hch). rewrite string_length_app in Hlen.
      destruct (IH r) as (ws & Hws & Hr & Hnone); [lia |].
      exists (ch +:+ ws). split; [apply all_space_app; [by apply all_space_char | done] |].
      split; [| done]. rewrite string_app_assoc. by rewrite <- Hr.
    + exists "". split; [apply all_space_nil | done].
Qed.

Lemma rstrip_go_spec (fuel : nat) (s : string) :
  String.length s ≤ fuel →
  ∃ ws, all_space ws ∧ s = rstrip_go fuel s +:+ ws ∧
        drop_space_end (rstrip_go fuel s) = None.
Proof.
  revert s. induction fuel as [|n IH]; intros s Hlen.
  - destruct s; [| simpl in Hlen; lia]. exists "". split; [apply all_space_nil |].
    split; [done |]. by vm_compute.
  - simpl. destruct (drop_space_end s) as [r|] eqn:E.
    + apply drop_space_end_Some in E as (ch & Hch & ->).
      pose proof (space_char_length ch Hch). rewrite string_length_app in Hlen.
      destruct (IH r) as (ws & Hws & Hr & Hnone); [lia |].
      exists (ws +:+ ch). split; [apply all_space_app; [done | by apply all_space_char] |].
      split; [| done]. rewrite <- string_app_assoc. by rewrite <- Hr.
    + exists "". split; [apply all_space_nil |]. by rewrite string_app_nil_r.
Qed.

(** What [str.strip] returns: the line is the result between two runs of
    white-space characters, and the result neither begins nor ends with a
    white-space character. *)
Lemma strip_spec (s : string) :
  ∃ ws1 ws2, all_space ws1 ∧ all_space ws2 ∧ s = ws1 +:+ strip s +:+ ws2 ∧
    (∀ ch r, is_space ch = true → strip s ≠ ch +:+ r) ∧
    (∀ ch r, is_space ch = true → strip s ≠ r +:+ ch).
Proof.
  unfold strip, lstrip, rstrip.
  destruct (lstrip_go_spec (String.length s) s) as (ws1 & H1 & Hs & Hl); [done |].
  set (t := lstrip_go (String.length s) s) in *.
  destruct (rstrip_go_spec (String.length t) t) as (ws2 & H2 & Ht & Hr); [done |].
  set (u := rstrip_go (String.length t) t) in *.
  exists ws1, ws2. split; [done |]. split; [done |].
  split; [by rewrite <- Ht |]. split.
  - intros ch r Hch Hu. rewrite drop_space_None in Hl.
    apply (Hl ch (r +:+ ws2) Hch). rewrite Ht, Hu. by rewrite string_app_assoc.
  - by apply drop_space_end_None.
Qed.










End StripFacts.

(** * The encode/cache step *)

Section EncodeFacts.
Context {example : Type}.
Implicit Types (w : world (example := example)) (tok : tokenizer (example := example)).

Lemma tokenize_loop_spec tok ml pad rt (texts : list string) examples w :
  tokenize_loop tok ml pad rt texts examples w =
  (Ok (examples ++ map (λ t, batch_encode_plus tok [t] ml pad true rt) texts),
   {| fs := fs w;
      tok_calls := tok_calls w ++
        map (λ t, {| call_texts := [t]; call_max_length := ml;
                     call_pad_to_max_length := pad;
                     call_add_prefix_space := true;
                     call_return_tensors := rt |}) texts |}).
Proof.
  revert examples w. induction texts as [|t texts IH]; intros examples w; simpl.
  - rewrite !app_nil_r. by destruct w.
  - unfold mbind, M_bind, call_batch_encode_plus. rewrite IH. simpl.
    by rewrite <- !app_assoc.
Qed.

(** Without a usable cache the file is tokenized line by line and the
    result is saved. *)
Lemma encode_file_fresh tok data_path ml pad rt ow prefix tok_name w lines :
  fs w !! data_path = Some (TextFile lines) →
  ow = true ∨ fs w !! cache_path_of data_path tok_name ml = None →
  encode_file tok data_path ml pad rt ow prefix tok_name w =
  (Ok (map (encode_line tok ml pad rt prefix) lines),
   {| fs := <[cache_path_of data_path tok_name ml :=
                PickleFile (map (encode_line tok ml pad rt prefix) lines)]> (fs w);
      tok_calls := tok_calls w ++ map (call_of ml pad rt prefix) lines |}).
Proof.
  intros Hdata Hcache. unfold encode_file.
  unfold mbind at 1, M_bind, path_exists.
  assert (negb ow && bool_decide (is_Some (fs w !! cache_path_of data_path tok_name ml))
          = false) as ->.
  { destruct Hcache as [-> | ->]; [done |].
    rewrite bool_decide_eq_false_2; [apply andb_false_r |].
    by intros [? ?]. }
  unfold mbind at 1, M_bind, readlines. rewrite Hdata.
  run_bind. rewrite tokenize_loop_spec.
  unfold lmap. rewrite !map_map. simpl. done.
Qed.

(** With a pickled cache and no overwrite the cache is returned and
    nothing else happens. *)
Lemma encode_file_cached tok data_path ml pad rt prefix tok_name w obj :
  fs w !! cache_path_of data_path tok_name ml = Some (PickleFile obj) →
  encode_file tok data_path ml pad rt false prefix tok_name w = (Ok obj, w).
Proof.
  intros Hcache. unfold encode_file.
  unfold mbind at 1, M_bind, path_exists. rewrite Hcache.
  rewrite bool_decide_eq_true_2 by eauto. simpl.
  unfold torch_load. by rewrite Hcache.
Qed.

(** C8: when the cache file is absent or an overwrite is requested,
    [encode_file] returns one example per line of the file, in file order:
    the tokenizer's encoding of the prefix followed by the stripped line,
    made with [max_length] and the padding flag ([True] unless the caller
    says otherwise).  The stripped line is what [str.strip] returns: the
    line is that text between two runs of white-space characters, and the
    text neither begins nor ends with a white-space character.  Each line is
    tokenized by a call of its own, and the list returned is the one saved
    at the derived cache path. *)
Theorem encode_file_encodes_each_line
    tok data_path ml pad rt ow prefix tok_name w lines :
  fs w !! data_path = Some (TextFile lines) →
  ow = true ∨ fs w !! cache_path_of data_path tok_name ml = None →
  ∃ examples w',
    encode_file tok data_path ml pad rt ow prefix tok_name w = (Ok examples, w') ∧
    length examples = length lines ∧
    (∀ i line, lines !! i = Some line →
       ∃ ws1 text ws2,
         line = ws1 +:+ text +:+ ws2 ∧ all_space ws1 ∧ all_space ws2 ∧
         (∀ ch r, is_space ch = true → text ≠ ch +:+ r) ∧
         (∀ ch r, is_space ch = true → text ≠ r +:+ ch) ∧
         text = strip line ∧
         examples !! i =
           Some (batch_encode_plus tok [prefix +:+ text] ml pad true rt)) ∧
    fs w' !! (data_path +:+ "_" +:+ tok_name +:+ pretty ml +:+ ".pkl")
      = Some (PickleFile examples) ∧
    (∀ p, p ≠ cache_path_of data_path tok_name ml → fs w' !! p = fs w !! p) ∧
    tok_calls w' = tok_calls w ++
      map (λ line, {| call_texts := [prefix +:+ strip line];
                      call_max_length := ml;
                      call_pad_to_max_length := pad;
                      call_add_prefix_space := true;
                      call_return_tensors := rt |}) lines.
Proof.
  intros Hdata Hcache. eexists _, _. split.
  { by apply encode_file_fresh. }
  simpl. split; [by rewrite length_map |]. split.
  { intros i line Hi.
    destruct (strip_spec line) as (ws1 & ws2 & H1 & H2 & Hline & Hhead & Hlast).
    exists ws1, (strip line), ws2. repeat split; try done.
    rewrite list_lookup_fmap, Hi. done. }
  repeat split.
  - apply lookup_insert_eq.
  - intros p Hp. by rewrite lookup_insert_ne.
Qed.

(** C5: two calls of [encode_file] with [overwrite_cache=False] on a file
    that has no cache yet.  The first call tokenizes every line once and
    saves the examples at [<data_path>_<tok_name><max_length>.pkl]; the
    second call records no tokenizer call, changes nothing, and returns
    what the first returned, which is also what a direct encode (one that
    overwrites the cache) returns. *)
Theorem encode_file_twice_tokenizes_once
    tok data_path ml pad rt prefix tok_name w lines :
  fs w !! data_path = Some (TextFile lines) →
  fs w !! cache_path_of data_path tok_name ml = None →
  ∃ examples w1,
    encode_file tok data_path ml pad rt false prefix tok_name w = (Ok examples, w1) ∧
    examples = map (encode_line tok ml pad rt prefix) lines ∧
    tok_calls w1 = tok_calls w ++ map (call_of ml pad rt prefix) lines ∧
    cache_path_of data_path tok_name ml
      = data_path +:+ "_" +:+ tok_name +:+ pretty ml +:+ ".pkl" ∧
    fs w1 !! cache_path_of data_path tok_name ml = Some (PickleFile examples) ∧
    encode_file tok data_path ml pad rt false prefix tok_name w1 = (Ok examples, w1) ∧
    (encode_file tok data_path ml pad rt true prefix tok_name w1).1 = Ok examples.
Proof.
  intros Hdata Hcache. eexists _, _. split.
  { apply encode_file_fresh; [done | by right]. }
  repeat split.
  - simpl. apply lookup_insert_eq.
  - apply encode_file_cached. simpl. apply lookup_insert_eq.
  - rewrite (encode_file_fresh _ _ _ _ _ _ _ _ _ lines); [done | | by left].
    simpl. rewrite lookup_insert_ne; [done |]. congruence.
Qed.

End EncodeFacts.

(** * Paths *)

Section PathFacts.

(** Joining a directory with a file name adds the same prefix whatever
    the extension of the file is. *)
Lemma path_join_extension (dir name : string) :
  ∃ pre, ∀ ext, path_join dir (name +:+ String "."%char ext)
                = pre +:+ (name +:+ String "."%char ext).
Proof.
  unfold path_join. destruct name as [|c name].
  - destruct (is_empty dir || ends_with_slash dir).
    + exists dir. intros ext. reflexivity.
    + exists (dir +:+ "/"). intros ext. simpl starts_with_slash. cbv iota.
      by rewrite string_app_assoc.
  - destruct (Ascii.ascii_dec c "/"%char) as [Hc|Hc].
    + exists "". intros ext. rewrite string_app_cons. simpl starts_with_slash.
      destruct (Ascii.ascii_dec c "/"%char); [reflexivity | done].
    + destruct (is_empty dir || ends_with_slash dir).
      * exists dir. intros ext. rewrite string_app_cons. simpl starts_with_slash.
        destruct (Ascii.ascii_dec c "/"%char); [done | reflexivity].
      * exists (dir +:+ "/"). intros ext.
        rewrite string_app_cons. simpl starts_with_slash.
        destruct (Ascii.ascii_dec c "/"%char); [done |].
        by rewrite string_app_assoc.
Qed.

(** A path of the source file's family is never one of the target's. *)
Lemma source_target_paths_differ (pre name a d : string) :
  pre +:+ (name +:+ (".source" +:+ a)) ≠ pre +:+ (name +:+ (".target" +:+ d)).
Proof.
  intros H. apply String.app_inj in H. apply String.app_inj in H.
  discriminate H.
Qed.

End PathFacts.

Section DatasetFacts.
Context {example : Type}.
Implicit Types (w : world (example := example)) (tok : tokenizer (example := example)).

(** C9: [from_raw_data] encodes the source file behind the prefix
    ["summarize: "] when the tokenizer is not a [BartTokenizer] (and behind
    no prefix when it is), and encodes the target file behind the empty
    prefix whatever the tokenizer is. *)
Theorem from_raw_data_prefixes
    tok data_dir type_path msl mtl n_obs ow tgt_suffix w src_lines tgt_lines :
  let src_path := path_join data_dir (type_path +:+ ".source") in
  let tgt_path :=
    if String.eqb type_path "train"
    then path_join data_dir (type_path +:+ ".target" +:+ tgt_suffix)
    else path_join data_dir (type_path +:+ ".target") in
  let tok_name := if isinstance_BartTokenizer tok then "" else "T5" in
  let src_prefix := if isinstance_BartTokenizer tok then "" else "summarize: " in
  fs w !! src_path = Some (TextFile src_lines) →
  fs w !! tgt_path = Some (TextFile tgt_lines) →
  ow = true ∨ (fs w !! cache_path_of src_path tok_name msl = None ∧
               fs w !! cache_path_of tgt_path tok_name mtl = None) →
  ∃ ds w',
    from_raw_data tok data_dir type_path msl mtl n_obs ow tgt_suffix w = (Ok ds, w') ∧
    ds = __init__
           (map (λ line, batch_encode_plus tok [src_prefix +:+ strip line]
                           msl true true "pt") src_lines)
           (map (λ line, batch_encode_plus tok [strip line] mtl true true "pt")
                tgt_lines)
           msl mtl n_obs ∧
    map call_texts (drop (length (tok_calls w)) (tok_calls w')) =
      map (λ line, [src_prefix +:+ strip line]) src_lines ++
      map (λ line, [strip line]) tgt_lines.
Proof.
  intros src_path tgt_path tok_name src_prefix Hsrc Htgt Hcache.
  destruct (path_join_extension data_dir type_path) as [pre Hjoin].
  assert (src_path = pre +:+ (type_path +:+ (".source" +:+ ""))) as Esrc
    by apply (Hjoin "source").
  assert (∃ sfx, tgt_path = pre +:+ (type_path +:+ (".target" +:+ sfx)))
    as [sfx Etgt].
  { unfold tgt_path. destruct (String.eqb type_path "train").
    - exists tgt_suffix. apply (Hjoin ("target" +:+ tgt_suffix)).
    - exists "". apply (Hjoin "target"). }
  assert (∀ ml, cache_path_of src_path tok_name ml ≠ tgt_path) as Hne1.
  { intros ml. unfold cache_path_of. rewrite Esrc, Etgt.
    rewrite !string_app_assoc. apply source_target_paths_differ. }
  assert (∀ ml ml', cache_path_of src_path tok_name ml
                    ≠ cache_path_of tgt_path tok_name ml') as Hne2.
  { intros ml ml'. unfold cache_path_of. rewrite Esrc, Etgt.
    rewrite !string_app_assoc. apply source_target_paths_differ. }
  unfold from_raw_data. fold src_path. fold tgt_path.
  assert ((if negb (isinstance_BartTokenizer tok) then "T5" else "") = tok_name)
    as -> by (unfold tok_name; by destruct (isinstance_BartTokenizer tok)).
  assert ((if String.eqb tok_name "T5" then T5_PREFIX else "") = src_prefix)
    as -> by (unfold tok_name, src_prefix; by destruct (isinstance_BartTokenizer tok)).
  run_bind.
  rewrite (encode_file_fresh _ _ _ _ _ _ _ _ _ src_lines) by tauto.
  run_bind.
  rewrite (encode_file_fresh _ _ _ _ _ _ _ _ _ tgt_lines).
  - eexists _, _. split; [reflexivity |]. split; [reflexivity |].
    simpl. rewrite <- app_assoc, drop_app_length.
    rewrite map_app, !map_map. done.
  - simpl. by rewrite lookup_insert_ne.
  - simpl. destruct Hcache as [-> | [_ Hc]]; [by left | right].
    by rewrite lookup_insert_ne.
Qed.

(** C4, as the code has it: the length of the dataset is the number of
    source examples kept.  Without [n_obs] that is [len(source)], which is
    [min(len(source), len(target))] when the two lists are equally long;
    with a non-negative [n_obs] of at most [len(source)] it is [n_obs]. *)
Theorem dataset_len_is_source_len
    (source target : list example) msl mtl (n_obs : option Z) :
  (∀ n, n_obs = Some n → (0 ≤ n ≤ Z.of_nat (length source))%Z) →
  Z.of_nat (__len__ (__init__ source target msl mtl n_obs))
    = match n_obs with
      | None => Z.of_nat (length source)
      | Some n => n
      end ∧
  (n_obs = None → length source = length target →
   __len__ (__init__ source target msl mtl n_obs)
     = Nat.min (length source) (length target)).
Proof.
  intros Hn. unfold __len__, __init__. destruct n_obs as [n|]; simpl.
  - specialize (Hn n eq_refl). split; [| done].
    unfold Py.slice_to. destruct (Z.leb_spec 0 n); [| lia].
    rewrite length_take. lia.
  - split; [done |]. intros _ Hlen. lia.
Qed.

End DatasetFacts.

(** * Collation *)

Section TrimFacts.
Context (pad : Z).
Implicit Types (row : tensor1) (rows : tensor2).

Lemma content_len_le row : TrimBatch.content_len pad row ≤ length row.
Proof.
  induction row as [|x row IH]; simpl; [done |].
  destruct ((TrimBatch.content_len pad row =? 0) && (x =? pad)%Z); lia.
Qed.

(** Behind its content a row holds pad tokens only. *)
Lemma drop_content_len row :
  drop (TrimBatch.content_len pad row) row
  = replicate (length row - TrimBatch.content_len pad row) pad.
Proof.
  induction row as [|x row IH]; simpl; [done |].
  destruct (Nat.eqb_spec (TrimBatch.content_len pad row) 0) as [Hc|Hc]; simpl.
  - destruct (Z.eqb_spec x pad) as [->|Hx]; simpl.
    + rewrite Hc in IH. simpl in IH. rewrite IH at 1.
      by rewrite Nat.sub_0_r.
    + rewrite Hc in *. simpl in *. done.
  - done.
Qed.

Lemma drop_above_content row k :
  TrimBatch.content_len pad row ≤ k →
  row = take k row ++ replicate (length row - k) pad.
Proof.
  intros Hk. rewrite <- (take_drop k row) at 1. f_equal.
  replace k with (TrimBatch.content_len pad row + (k - TrimBatch.content_len pad row))
    at 1 by lia.
  rewrite <- drop_drop, drop_content_len, drop_replicate. f_equal. lia.
Qed.

(** The last position of the content holds a token that is not the pad. *)
Lemma content_len_last row :
  0 < TrimBatch.content_len pad row →
  ∃ t, row !! (TrimBatch.content_len pad row - 1) = Some t ∧ t ≠ pad.
Proof.
  induction row as [|x row IH]; simpl; [lia |].
  destruct (Nat.eqb_spec (TrimBatch.content_len pad row) 0) as [Hc|Hc]; simpl.
  - destruct (Z.eqb_spec x pad) as [->|Hx]; simpl; [lia |].
    intros _. rewrite Hc. simpl. eauto.
  - intros _. rewrite Nat.sub_0_r.
    destruct IH as (t & Ht & Hne); [lia |].
    exists t. split; [| done].
    destruct (TrimBatch.content_len pad row) as [|c]; [done |].
    simpl in *. by rewrite Nat.sub_0_r in Ht.
Qed.

Lemma content_len_padded (toks : tensor1) k :
  Forall (λ t, t ≠ pad) toks →
  TrimBatch.content_len pad (toks ++ replicate k pad) = length toks.
Proof.
  induction 1 as [|x toks Hx _ IH]; simpl.
  - induction k as [|k IHk]; simpl; [done |].
    rewrite IHk. simpl. by rewrite Z.eqb_refl.
  - rewrite IH. destruct (Z.eqb_spec x pad); [done |].
    by rewrite andb_false_r.
Qed.

Lemma keep_width_ge rows row :
  row ∈ rows → TrimBatch.content_len pad row ≤ TrimBatch.keep_width pad rows.
Proof.
  intros Hrow. apply max_list_elem_of_le, list_elem_of_fmap. eauto.
Qed.

Lemma keep_width_attained rows :
  0 < TrimBatch.keep_width pad rows →
  ∃ row, row ∈ rows ∧ TrimBatch.content_len pad row = TrimBatch.keep_width pad rows.
Proof.
  intros Hw. unfold TrimBatch.keep_width in *.
  destruct rows as [|r rows]; [simpl in Hw; lia |].
  assert (map (TrimBatch.content_len pad) (r :: rows) ≠ []) as Hne by done.
  apply max_list_elem_of, list_elem_of_fmap in Hne as (row & Heq & Hin).
  eauto.
Qed.

End TrimFacts.

Section CollateFacts.
Context {example : Type} (self : SummarizationDataset (example := example)).

Lemma torch_stack_ok (ts : list tensor1) n :
  ts ≠ [] → Forall (λ t, length t = n) ts → torch_stack ts = Ok ts.
Proof.
  intros Hne Hall. destruct ts as [|t0 ts]; [done |]. simpl.
  apply Forall_cons in Hall as [Ht0 Hall].
  rewrite (proj2 (forallb_forall _ _)); [done |].
  intros t Ht%list_elem_of_In. rewrite Forall_forall in Hall.
  apply Nat.eqb_eq. rewrite Ht0. by apply Hall.
Qed.

(** C10: [collate_fn] trims with the class attribute [pad_token_id], which
    is 1: the batch it returns is [trim_seq2seq_batch] of the stacked items
    at pad id 1, and it is the same for every dataset instance, whatever
    tokenizer made its examples. *)
Theorem collate_fn_pad_id_is_one
    (trim_batch : tensor2 → Z → tensor2)
    (trim_batch_with_mask : tensor2 → Z → tensor2 → tensor2 * tensor2)
    {example'} (other : SummarizationDataset (example := example'))
    (items : list item) :
  pad_token_id = 1%Z ∧
  collate_fn trim_batch trim_batch_with_mask self items
    = collate_fn trim_batch trim_batch_with_mask other items ∧
  collate_fn trim_batch trim_batch_with_mask self items
    = (ids ← torch_stack (map input_ids items);
       masks ← torch_stack (map attention_mask items);
       target_ids ← torch_stack (map decoder_input_ids items);
       let '(source_ids, source_mask, y) :=
         trim_seq2seq_batch trim_batch trim_batch_with_mask
           {| batch_input_ids := ids; batch_attention_mask := masks;
              batch_decoder_input_ids := target_ids |} 1 in
       mret {| batch_input_ids := source_ids;
               batch_attention_mask := source_mask;
               batch_decoder_input_ids := y |}).
Proof.
  split; [reflexivity |]. split; [reflexivity |].
  unfold collate_fn, trim_seq2seq_batch, pad_token_id.
  destruct (torch_stack (map input_ids items)) as [ids|]; [| done].
  destruct (torch_stack (map attention_mask items)) as [masks|]; [| done].
  destruct (torch_stack (map decoder_input_ids items)) as [tgt|]; [| done].
  simpl. by destruct (trim_batch_with_mask ids 1%Z masks).
Qed.

(** C6: for a non-empty batch of items of one shape, [collate_fn] stacks
    them and cuts every row to the least width that keeps all tokens other
    than the pad id 1: the rows are prefixes of the items' rows, only pad
    tokens are cut, and the last column kept holds a token that is not the
    pad in some row.  Two examples of 5 and 8 tokens padded to 20 with the
    pad id 1 give a batch of width 8. *)
Theorem collate_fn_trims_to_content (items : list item) n m :
  items ≠ [] →
  Forall (λ x, length (input_ids x) = n ∧ length (attention_mask x) = n ∧
               length (decoder_input_ids x) = m) items →
  ∃ out,
    collate_fn TrimBatch.trim_batch TrimBatch.trim_batch_with_mask self items
      = Ok out ∧
    let w := TrimBatch.keep_width 1 (map input_ids items) in
    let wy := TrimBatch.keep_width 1 (map decoder_input_ids items) in
    batch_input_ids out = map (λ x, take w (input_ids x)) items ∧
    batch_attention_mask out = map (λ x, take w (attention_mask x)) items ∧
    batch_decoder_input_ids out = map (λ x, take wy (decoder_input_ids x)) items ∧
    w ≤ n ∧ wy ≤ m ∧
    Forall (λ row, length row = w) (batch_input_ids out) ∧
    (∀ x, x ∈ items →
       input_ids x = take w (input_ids x) ++ replicate (n - w) 1%Z ∧
       decoder_input_ids x
         = take wy (decoder_input_ids x) ++ replicate (m - wy) 1%Z) ∧
    (0 < w → ∃ x t, x ∈ items ∧ input_ids x !! (w - 1) = Some t ∧ t ≠ 1%Z) ∧
    (0 < wy → ∃ x t, x ∈ items ∧ decoder_input_ids x !! (wy - 1) = Some t ∧ t ≠ 1%Z) ∧
    (∀ toks5 toks8,
       map input_ids items = [toks5 ++ replicate 15 1%Z; toks8 ++ replicate 12 1%Z] →
       length toks5 = 5 → length toks8 = 8 →
       Forall (λ t, t ≠ 1%Z) (toks5 ++ toks8) →
       n = 20 ∧ w = 8 ∧
       batch_input_ids out = [toks5 ++ replicate 3 1%Z; toks8]).
Proof.
  intros Hne Hshape.
  assert (∀ x, x ∈ items → length (input_ids x) = n ∧
             length (attention_mask x) = n ∧ length (decoder_input_ids x) = m)
    as Hx by (by apply Forall_forall).
  set (w := TrimBatch.keep_width 1 (map input_ids items)).
  set (wy := TrimBatch.keep_width 1 (map decoder_input_ids items)).
  assert (∀ x, x ∈ items → TrimBatch.content_len 1 (input_ids x) ≤ w) as Hw.
  { intros x Hin. apply keep_width_ge, list_elem_of_fmap. eauto. }
  assert (∀ x, x ∈ items → TrimBatch.content_len 1 (decoder_input_ids x) ≤ wy) as Hwy.
  { intros x Hin. apply keep_width_ge, list_elem_of_fmap. eauto. }
  assert (w ≤ n) as Hwn.
  { destruct (decide (0 < w)) as [Hpos|]; [| lia].
    apply keep_width_attained in Hpos as (row & Hrow & Hlen).
    apply list_elem_of_fmap in Hrow as (x & -> & Hin).
    fold w in Hlen. rewrite <- Hlen, <- (proj1 (Hx x Hin)). apply content_len_le. }
  assert (wy ≤ m) as Hwm.
  { destruct (decide (0 < wy)) as [Hpos|]; [| lia].
    apply keep_width_attained in Hpos as (row & Hrow & Hlen).
    apply list_elem_of_fmap in Hrow as (x & -> & Hin).
    fold wy in Hlen. rewrite <- Hlen.
    rewrite <- (proj2 (proj2 (Hx x Hin))). apply content_len_le. }
  assert (map (take w) (map input_ids items) = map (λ x, take w (input_ids x)) items)
    as Hids by by rewrite map_map.
  eexists. split.
  { unfold collate_fn.
    rewrite (torch_stack_ok (map input_ids items) n);
      [| by destruct items | apply Forall_fmap; eapply Forall_impl; [exact Hshape |];
         by intros x (? & ? & ?)].
    rewrite (torch_stack_ok (map attention_mask items) n);
      [| by destruct items | apply Forall_fmap; eapply Forall_impl; [exact Hshape |];
         by intros x (? & ? & ?)].
    rewrite (torch_stack_ok (map decoder_input_ids items) m);
      [| by destruct items | apply Forall_fmap; eapply Forall_impl; [exact Hshape |];
         by intros x (? & ? & ?)].
    simpl. reflexivity. }
  cbn -[replicate take]. unfold TrimBatch.trim_batch.
  change pad_token_id with 1%Z. fold w. fold wy.
  split; [exact Hids |]. split; [by rewrite map_map |].
  split; [by rewrite map_map |].
  split; [done |]. split; [done |]. split; [| split; [| split; [| split]]].
  - rewrite Hids. apply Forall_fmap, Forall_forall. intros x Hin. simpl.
    rewrite length_take, (proj1 (Hx x Hin)). lia.
  - intros x Hin. destruct (Hx x Hin) as (Hn & _ & Hm). split.
    + rewrite <- Hn. apply drop_above_content. by apply Hw.
    + rewrite <- Hm. apply drop_above_content. by apply Hwy.
  - intros Hpos. destruct (keep_width_attained _ _ Hpos) as (row & Hrow & Hlen).
    apply list_elem_of_fmap in Hrow as (x & -> & Hin). fold w in Hlen.
    destruct (content_len_last 1 (input_ids x)) as (t & Ht & Hne1);
      [rewrite Hlen; lia |].
    exists x, t. by rewrite <- Hlen.
  - intros Hpos. destruct (keep_width_attained _ _ Hpos) as (row & Hrow & Hlen).
    apply list_elem_of_fmap in Hrow as (x & -> & Hin). fold wy in Hlen.
    destruct (content_len_last 1 (decoder_input_ids x)) as (t & Ht & Hne1);
      [rewrite Hlen; lia |].
    exists x, t. by rewrite <- Hlen.
  - intros toks5 toks8 Hrows H5 H8 Htoks.
    apply Forall_app in Htoks as [Ht5 Ht8].
    assert (w = 8) as Hw8.
    { unfold w, TrimBatch.keep_width. rewrite Hrows.
      cbn -[replicate TrimBatch.content_len].
      rewrite !content_len_padded by done. lia. }
    split; [| split; [done |]].
    + destruct items as [|x items]; [done |].
      injection Hrows as Hr _. rewrite <- (proj1 (Hx x ltac:(left))), Hr.
      rewrite length_app. simpl. lia.
    + rewrite Hrows, Hw8. simpl map.
      rewrite take_app_ge by lia. rewrite H5. simpl take.
      rewrite (take_app_length' toks8) by done. done.
Qed.

End CollateFacts.

(** * The definitions at concrete inputs *)

Lemma rotate_rng_valid : SortishSampler.rng_valid rotate_rng.
Proof.
  intros n g. simpl. unfold rotate.
  by rewrite Permutation_app_comm, take_drop.
Qed.

Example demo_sampler_run :
  SortishSampler.__iter__ length rotate_rng demo_sampler 2
  = (Ok [5; 4; 2; 1; 0; 6; 3], 4).
Proof. reflexivity. Qed.

Example demo_collate_run :
  collate_fn TrimBatch.trim_batch TrimBatch.trim_batch_with_mask demo_dataset
    demo_items
  = Ok {| batch_input_ids :=
            [[11; 12; 13; 14; 15; 1; 1; 1]; [21; 22; 23; 24; 25; 26; 27; 28]]%Z;
          batch_attention_mask :=
            [[1; 1; 1; 1; 1; 0; 0; 0]; [1; 1; 1; 1; 1; 1; 1; 1]]%Z;
          batch_decoder_input_ids := [[31; 32; 1]; [41; 42; 43]]%Z |}.
Proof. reflexivity. Qed.

Example demo_encode_run :
  (encode_file demo_tokenizer "data/train.source" 1024 true "pt" false
     "summarize: " "T5" demo_world).1
  = Ok [(["summarize: the cat sat"], 1024%Z); (["summarize: a dog ran"], 1024%Z)].
Proof. vm_compute. reflexivity. Qed.

Example demo_from_raw_data_calls :
  map call_texts
    (tok_calls (from_raw_data demo_tokenizer "data" "train" 1024 56 None false ""
                  demo_world).2)
  = [["summarize: the cat sat"]; ["summarize: a dog ran"]; ["cat"]; ["dog"]].
Proof. vm_compute. reflexivity. Qed.

(** With the pad id 0 of another tokenizer nothing is trimmed. *)
Example demo_collate_zero_padding :
  collate_fn TrimBatch.trim_batch TrimBatch.trim_batch_with_mask demo_dataset
    [ {| input_ids := [11; 12; 0; 0]%Z; attention_mask := [1; 1; 0; 0]%Z;
         decoder_input_ids := [31; 0]%Z |} ]
  = Ok {| batch_input_ids := [[11; 12; 0; 0]]%Z;
          batch_attention_mask := [[1; 1; 0; 0]]%Z;
          batch_decoder_input_ids := [[31; 0]]%Z |}.
Proof. reflexivity. Qed.

(** The encoding of white-space characters in bytes. *)
Example utf8_bytes :
  map (λ cp, map Ascii.nat_of_ascii (list_ascii_of_string (utf8 cp)))
      [32; 133; 160; 5760; 8192; 8232; 12288]%N
  = [[32]; [194; 133]; [194; 160]; [225; 154; 128]; [226; 128; 128];
     [226; 128; 168]; [227; 128; 128]].
Proof. vm_compute. reflexivity. Qed.

(** [strip] on white space beyond ASCII: a no-break space (the bytes 194
    and 160) and a newline behind the text are removed, and so is each of
    the white-space characters on either side of a text; a zero-width space
    (U+200B), which [str.isspace] refuses, and a no-break space inside the
    text are kept. *)
Example strip_unicode_space :
  strip ("a dog" +:+ String (Ascii.ascii_of_nat 194)
                       (String (Ascii.ascii_of_nat 160)
                          (String (Ascii.ascii_of_nat 10) EmptyString))) = "a dog" ∧
  strip (utf8 12288 +:+ "  the cat sat  " +:+ utf8 160) = "the cat sat" ∧
  map (λ cp, strip (utf8 cp +:+ "x" +:+ utf8 cp)) space_code_points
    = map (λ _, "x") space_code_points ∧
  strip ("a" +:+ utf8 8203) = "a" +:+ utf8 8203 ∧
  strip ("a" +:+ utf8 160 +:+ "b") = "a" +:+ utf8 160 +:+ "b" ∧
  strip (utf8 32 +:+ utf8 8232 +:+ utf8 9) = "".
Proof. vm_compute. repeat split. Qed.

(** ** The theorems at the concrete inputs *)

Lemma sortish_iter_permutation_witness :
  SortishSampler.rng_valid rotate_rng ∧
  1 ≤ length (SortishSampler.data_source demo_sampler) ∧
  (1 ≤ SortishSampler.bs demo_sampler)%Z ∧
  ∃ out g',
    SortishSampler.__iter__ length rotate_rng demo_sampler 2 = (Ok out, g') ∧
    out ≡ₚ seq 0 7 ∧ length out = 7 ∧ NoDup out ∧
    (∀ i, i ∈ out ↔ i < 7) ∧
    (∀ i, i < 7 → count_occ Nat.eq_dec out i = 1).
Proof.
  split; [exact rotate_rng_valid |].
  split; [simpl; lia |]. split; [simpl; lia |].
  apply (sortish_iter_permutation length rotate_rng demo_sampler 2 rotate_rng_valid);
    simpl; lia.
Defined.

Lemma sortish_first_batch_max_key_witness :
  SortishSampler.rng_valid rotate_rng ∧
  1 ≤ length (SortishSampler.data_source demo_sampler) ∧
  (1 ≤ SortishSampler.bs demo_sampler)%Z ∧
  ∃ out g' first kf,
    SortishSampler.__iter__ length rotate_rng demo_sampler 2 = (Ok out, g') ∧
    out !! 0 = Some first ∧
    SortishSampler.key length demo_sampler first = Ok kf ∧
    (∀ batch e, batch ∈ Py.chunks 3 out → batch !! 0 = Some e →
                ∃ ke, SortishSampler.key length demo_sampler e = Ok ke ∧ ke ≤ kf) ∧
    (∀ e, e ∈ out →
          ∃ ke, SortishSampler.key length demo_sampler e = Ok ke ∧ ke ≤ kf).
Proof.
  split; [exact rotate_rng_valid |].
  split; [simpl; lia |]. split; [simpl; lia |].
  apply (sortish_first_batch_max_key length rotate_rng demo_sampler 2
           rotate_rng_valid); simpl; lia.
Defined.

Lemma demo_idxs_perm :
  [2; 3; 4; 5; 6; 0; 1] ≡ₚ seq 0 (length (SortishSampler.data_source demo_sampler)).
Proof.
  change [2; 3; 4; 5; 6; 0; 1] with (rotate 2 (seq 0 7)).
  unfold rotate. by rewrite Permutation_app_comm, take_drop.
Qed.

Lemma sortish_single_batch_witness :
  SortishSampler.rng_valid rotate_rng ∧
  1 ≤ length (SortishSampler.data_source demo_single_batch_sampler) ∧
  (7 ≤ SortishSampler.bs demo_single_batch_sampler)%Z ∧
  SortishSampler.__iter__ length rotate_rng demo_single_batch_sampler 2
  = (Ok [5; 4; 2; 0; 6; 3; 1], 3).
Proof.
  split; [exact rotate_rng_valid |].
  split; [simpl; lia |]. split; [simpl; lia |].
  apply (sortish_single_batch length rotate_rng demo_single_batch_sampler 2
           rotate_rng_valid); simpl; lia.
Defined.

Lemma encode_file_encodes_each_line_witness :
  fs demo_world_spaced !! "data/train.source" = Some (TextFile demo_unicode_lines) ∧
  fs demo_world_spaced !! cache_path_of "data/train.source" "T5" 1024 = None ∧
  ∃ examples w',
    encode_file demo_tokenizer "data/train.source" 1024 true "pt" false
      "summarize: " "T5" demo_world_spaced = (Ok examples, w') ∧
    length examples = 2 ∧
    (∀ i line, demo_unicode_lines !! i = Some line →
       ∃ ws1 text ws2,
         line = ws1 +:+ text +:+ ws2 ∧ all_space ws1 ∧ all_space ws2 ∧
         (∀ ch r, is_space ch = true → text ≠ ch +:+ r) ∧
         (∀ ch r, is_space ch = true → text ≠ r +:+ ch) ∧
         examples !! i =
           Some (batch_encode_plus demo_tokenizer ["summarize: " +:+ text]
                   1024 true true "pt")) ∧
    fs w' !! "data/train.source_T51024.pkl" = Some (PickleFile examples) ∧
    tok_calls w' =
      map (λ text, {| call_texts := [text];
                      call_max_length := 1024;
                      call_pad_to_max_length := true;
                      call_add_prefix_space := true;
                      call_return_tensors := "pt" |})
          ["summarize: the cat sat"; "summarize: a dog ran"].
Proof.
  split; [vm_compute; reflexivity |]. split; [vm_compute; reflexivity |].
  destruct (encode_file_encodes_each_line demo_tokenizer "data/train.source" 1024
              true "pt" false "summarize: " "T5" demo_world_spaced demo_unicode_lines)
    as (examples & w' & Hrun & Hlen & Hexamples & Hcache & _ & Hcalls).
  - vm_compute; reflexivity.
  - right. vm_compute; reflexivity.
  - exists examples, w'. split; [exact Hrun |]. split; [exact Hlen |]. split.
    + intros i line Hi.
      destruct (Hexamples i line Hi) as (ws1 & text & ws2 & H1 & H2 & H3 & H4 & H5 & _ & H6).
      exists ws1, text, ws2. do 5 (split; [assumption |]). exact H6.
    + split; [exact Hcache |]. rewrite Hcalls. vm_compute. reflexivity.
Defined.

Lemma encode_file_twice_tokenizes_once_witness :
  fs demo_world !! "data/train.source" = Some (TextFile demo_source_lines) ∧
  fs demo_world !! cache_path_of "data/train.source" "T5" 1024 = None ∧
  ∃ examples w1,
    encode_file demo_tokenizer "data/train.source" 1024 true "pt" false
      "summarize: " "T5" demo_world = (Ok examples, w1) ∧
    examples = map (encode_line demo_tokenizer 1024 true "pt" "summarize: ")
                   demo_source_lines ∧
    tok_calls w1 = tok_calls demo_world ++
      map (call_of 1024 true "pt" "summarize: ") demo_source_lines ∧
    cache_path_of "data/train.source" "T5" 1024
      = "data/train.source" +:+ "_" +:+ "T5" +:+ pretty 1024%Z +:+ ".pkl" ∧
    fs w1 !! cache_path_of "data/train.source" "T5" 1024 = Some (PickleFile examples) ∧
    encode_file demo_tokenizer "data/train.source" 1024 true "pt" false
      "summarize: " "T5" w1 = (Ok examples, w1) ∧
    (encode_file demo_tokenizer "data/train.source" 1024 true "pt" true
       "summarize: " "T5" w1).1 = Ok examples.
Proof.
  split; [vm_compute; reflexivity |]. split; [vm_compute; reflexivity |].
  apply (encode_file_twice_tokenizes_once demo_tokenizer "data/train.source" 1024
           true "pt" "summarize: " "T5" demo_world demo_source_lines);
    vm_compute; reflexivity.
Defined.

Lemma from_raw_data_prefixes_witness :
  fs demo_world !! path_join "data" ("train" +:+ ".source")
    = Some (TextFile demo_source_lines) ∧
  fs demo_world !! path_join "data" ("train" +:+ ".target" +:+ "")
    = Some (TextFile demo_target_lines) ∧
  ∃ ds w',
    from_raw_data demo_tokenizer "data" "train" 1024 56 None false "" demo_world
      = (Ok ds, w') ∧
    ds = __init__
           (map (λ line, batch_encode_plus demo_tokenizer
                           ["summarize: " +:+ strip line] 1024 true true "pt")
                demo_source_lines)
           (map (λ line, batch_encode_plus demo_tokenizer [strip line] 56 true true "pt")
                demo_target_lines)
           1024 56 None ∧
    map call_texts (drop (length (tok_calls demo_world)) (tok_calls w')) =
      map (λ line, ["summarize: " +:+ strip line]) demo_source_lines ++
      map (λ line, [strip line]) demo_target_lines.
Proof.
  split; [vm_compute; reflexivity |]. split; [vm_compute; reflexivity |].
  apply (from_raw_data_prefixes demo_tokenizer "data" "train" 1024 56 None false ""
           demo_world demo_source_lines demo_target_lines).
  - vm_compute; reflexivity.
  - vm_compute; reflexivity.
  - right. split; vm_compute; reflexivity.
Defined.

Lemma dataset_len_is_source_len_witness :
  (0 ≤ 2 ≤ Z.of_nat (length [(); (); ()]))%Z ∧
  Z.of_nat (__len__ (__init__ [(); (); ()] [(); (); ()] 1024 56 (Some 2%Z))) = 2%Z.
Proof.
  split; [simpl; lia |].
  apply (dataset_len_is_source_len [(); (); ()] [(); (); ()] 1024 56 (Some 2%Z)).
  intros n [= <-]. simpl. lia.
Defined.

(** C4 as stated fails: with two source examples and one target example the
    length is 2 and not the minimum 1; and a negative [n_obs] cuts from the
    end, so the length is not [n_obs]. *)
Lemma dataset_len_counterexample :
  __len__ (__init__ [(); ()] [()] 1024 56 None)
    ≠ Nat.min (length [(); ()]) (length [()]) ∧
  ((-1) < Z.of_nat (Nat.min (length [(); ()]) (length [(); ()])))%Z ∧
  Z.of_nat (__len__ (__init__ [(); ()] [(); ()] 1024 56 (Some (-1)%Z))) ≠ (-1)%Z.
Proof. vm_compute. repeat split; discriminate. Qed.

Lemma collate_fn_trims_to_content_witness :
  ∃ out,
    collate_fn TrimBatch.trim_batch TrimBatch.trim_batch_with_mask demo_dataset
      demo_items = Ok out ∧
    TrimBatch.keep_width 1 (map input_ids demo_items) = 8 ∧
    batch_input_ids out
      = [[11; 12; 13; 14; 15]%Z ++ replicate 3 1%Z;
         [21; 22; 23; 24; 25; 26; 27; 28]%Z].
Proof.
  destruct (collate_fn_trims_to_content demo_dataset demo_items 20 6)
    as (out & Hrun & _ & _ & _ & _ & _ & _ & _ & _ & _ & H58).
  - discriminate.
  - repeat constructor.
  - exists out. split; [exact Hrun |].
    destruct (H58 [11; 12; 13; 14; 15]%Z [21; 22; 23; 24; 25; 26; 27; 28]%Z)
      as (_ & Hw & Hout); try reflexivity.
    + repeat constructor; discriminate.
    + split; [exact Hw | exact Hout].
Defined.

(** * Further properties of the sortish sampler *)

Section SamplerMore.
Context {A : Type} (len : A → nat).
Context {rng : Type} (np_random_permutation : nat → rng → list nat * rng).
Context (self : SortishSampler.t (A := A)).

Local Abbreviation N := (length (SortishSampler.data_source self)).
Local Abbreviation b := (Z.to_nat (SortishSampler.bs self)).
Local Abbreviation key := (SortishSampler.key len self).
Local Abbreviation key_of := (SortishSampler.key_of len self).
Local Abbreviation rng_valid := (SortishSampler.rng_valid np_random_permutation).
Local Abbreviation iter := (SortishSampler.__iter__ len np_random_permutation self).
Local Abbreviation sorted_chunks idxs :=
  (concat (map (Py.sort_desc key_of) (Py.chunks (b * 50) idxs))).
Local Abbreviation key_desc i j :=
  (∃ ki kj, key i = Ok ki ∧ key j = Ok kj ∧ kj ≤ ki).

(** An exception of the first phase ends the run after the first draw. *)
Lemma iter_sort_raises g idxs g1 e :
  np_random_permutation N g = (idxs, g1) →
  SortishSampler.sort_chunks len self idxs = Raise e →
  iter g = (Raise e, g1).
Proof.
  intros Hdraw Hsort.
  unfold SortishSampler.__iter__, SortishSampler.permutation_int.
  run_bind. rewrite Hdraw. run_bind. unfold lift. by rewrite Hsort.
Qed.

Lemma sort_chunks_bad_batch_size idxs :
  (SortishSampler.bs self ≤ 0)%Z →
  ∃ msg, SortishSampler.sort_chunks len self idxs = Raise (ValueError msg).
Proof.
  intros Hbs. unfold SortishSampler.sort_chunks, SortishSampler.chunked, Py.range.
  destruct (Z.eqb_spec (SortishSampler.bs self * 50) 0) as [|Hne]; [by eexists |].
  destruct (Z.ltb_spec (SortishSampler.bs self * 50) 0) as [|]; [| lia].
  by eexists.
Qed.

Lemma sort_chunks_empty :
  (1 ≤ SortishSampler.bs self)%Z →
  ∃ msg, SortishSampler.sort_chunks len self [] = Raise (ValueError msg).
Proof.
  intros Hbs. unfold SortishSampler.sort_chunks.
  rewrite chunked_ok by lia. rewrite chunks_nil. by eexists.
Qed.

Lemma draw_empty g : rng_valid → N = 0 → (np_random_permutation N g).1 = [].
Proof.
  intros Hrng HN. specialize (Hrng N g). rewrite HN in Hrng.
  rewrite HN. by apply Permutation_nil_r in Hrng.
Qed.

(** X1: [__iter__] returns an order exactly when the data source is not
    empty and [bs >= 1]; on an empty data source or with [bs <= 0] it raises
    a [ValueError], having drawn one permutation. *)
Theorem sortish_iter_succeeds_iff g :
  rng_valid →
  match (iter g).1 with
  | Ok _ => 1 ≤ N ∧ (1 ≤ SortishSampler.bs self)%Z
  | Raise e =>
      (N = 0 ∨ (SortishSampler.bs self ≤ 0)%Z) ∧
      (∃ msg, e = ValueError msg) ∧
      (iter g).2 = (np_random_permutation N g).2
  end.
Proof.
  intros Hrng.
  destruct (decide (1 ≤ N ∧ (1 ≤ SortishSampler.bs self)%Z)) as [[HN Hbs]|Hbad].
  - destruct (iter_output_range len np_random_permutation self g Hrng HN Hbs)
      as (out & g' & -> & _). done.
  - assert (N = 0 ∨ (SortishSampler.bs self ≤ 0)%Z) as Hcase by lia.
    destruct (np_random_permutation N g) as [idxs g1] eqn:Hdraw.
    assert (∃ msg, SortishSampler.sort_chunks len self idxs = Raise (ValueError msg))
      as [msg Hsort].
    { destruct (decide (SortishSampler.bs self ≤ 0)%Z) as [Hbs|Hbs].
      - by apply sort_chunks_bad_batch_size.
      - assert (idxs = []) as ->.
        { pose proof (draw_empty g Hrng) as Hd. rewrite Hdraw in Hd.
          apply Hd. lia. }
        apply sort_chunks_empty. lia. }
    rewrite (iter_sort_raises g idxs g1 _ Hdraw Hsort). simpl.
    split; [done |]. split; [by eexists | done].
Qed.

Lemma StronglySorted_take {B} (R : B → B → Prop) (l : list B) k :
  StronglySorted R l → StronglySorted R (take k l).
Proof.
  intros Hs. revert k. induction Hs as [|x l Hs IH Hx]; intros [|k]; simpl.
  - constructor.
  - constructor.
  - constructor.
  - constructor; [apply IH | by apply Forall_take].
Qed.

Lemma StronglySorted_drop {B} (R : B → B → Prop) (l : list B) k :
  StronglySorted R l → StronglySorted R (drop k l).
Proof.
  intros Hs. revert k. induction Hs as [|x l Hs IH Hx]; intros [|k]; simpl.
  - constructor.
  - constructor.
  - by constructor.
  - apply IH.
Qed.

Lemma chunks_sorted {B} (R : B → B → Prop) sz (l c : list B) :
  0 < sz → StronglySorted R l → c ∈ Py.chunks sz l → StronglySorted R c.
Proof.
  intros Hsz Hs [j Hj]%list_elem_of_lookup.
  apply chunks_lookup in Hj as [_ ->]; [| done].
  by apply StronglySorted_take, StronglySorted_drop.
Qed.

(** The batches of [bs] never straddle two chunks of [50 * bs], so each is
    in descending order of the key. *)
Lemma sorted_chunks_batches_sorted (idxs : list nat) c :
  0 < b → c ∈ Py.chunks b (sorted_chunks idxs) →
  StronglySorted (Py.desc key_of) c.
Proof.
  intros Hb. revert idxs c.
  apply (chunks_ind (b * 50)
           (λ idxs, ∀ c, c ∈ Py.chunks b (sorted_chunks idxs) → _)); [lia | |].
  - intros c. rewrite chunks_nil. simpl. rewrite chunks_nil.
    by intros ?%elem_of_nil.
  - intros idxs Hne IH c. rewrite (chunks_cons (b * 50) idxs) by (lia || done).
    simpl. set (s1 := Py.sort_desc key_of (take (b * 50) idxs)).
    assert (∀ c, c ∈ Py.chunks b s1 → StronglySorted (Py.desc key_of) c) as Hhead.
    { intros c' Hc'. eapply chunks_sorted; [done | | exact Hc'].
      apply sort_desc_sorted. }
    destruct (decide (drop (b * 50) idxs = [])) as [Hd|Hd].
    + rewrite Hd, chunks_nil. simpl. rewrite app_nil_r. apply Hhead.
    + assert (length s1 = 50 * b) as Hlen.
      { unfold s1. rewrite length_sort_desc, length_take.
        assert (length (drop (b * 50) idxs) ≠ 0) as Hl
          by (by destruct (drop (b * 50) idxs)).
        rewrite length_drop in Hl. lia. }
      rewrite (chunks_app b 50) by done.
      intros [Hc|Hc]%elem_of_app; [by apply Hhead | by apply IH].
Qed.

Lemma chunks_length_bounds {B} sz (l c : list B) :
  0 < sz → c ∈ Py.chunks sz l → 1 ≤ length c ≤ sz.
Proof.
  intros Hsz [j Hj]%list_elem_of_lookup.
  apply chunks_lookup in Hj as [Hlt ->]; [| done].
  rewrite slice_chunk_length. lia.
Qed.

Lemma chunks_length_exact {B} sz (l c : list B) :
  0 < sz → length l `mod` sz = 0 → c ∈ Py.chunks sz l → length c = sz.
Proof.
  intros Hsz Hmod [j Hj]%list_elem_of_lookup.
  apply chunks_lookup in Hj as [Hlt ->]; [| done].
  rewrite slice_chunk_length.
  apply Nat.Div0.mod_divides in Hmod as [q Hq]. rewrite Hq in *.
  assert (j < q) by nia. nia.
Qed.

Lemma chunks_concat_uniform {B} sz (cs : list (list B)) :
  0 < sz → Forall (λ c, length c = sz) cs → Py.chunks sz (concat cs) = cs.
Proof.
  intros Hsz. induction 1 as [|c cs Hc _ IH]; simpl; [apply chunks_nil |].
  rewrite (chunks_app sz 1) by lia. rewrite IH.
  rewrite chunks_single; [done | | lia].
  intros ->. simpl in Hc. lia.
Qed.

(** X2: the produced order is made of whole batches: it is the
    concatenation of the batches of [bs] cut from [sort_idx], taken in
    another order.  Each of them holds between 1 and [bs] indices in
    descending order of the key; when [bs] divides [N] they all hold [bs]
    indices and are the batches a consumer cuts from the produced order. *)
Theorem sortish_iter_keeps_batches g :
  rng_valid → 1 ≤ N → (1 ≤ SortishSampler.bs self)%Z →
  ∃ out g' sort_idx batches,
    iter g = (Ok out, g') ∧
    SortishSampler.sort_chunks len self (np_random_permutation N g).1 = Ok sort_idx ∧
    out = concat batches ∧
    batches ≡ₚ Py.chunks b sort_idx ∧
    Forall (λ bt, 1 ≤ length bt ≤ b ∧ StronglySorted (λ i j, key_desc i j) bt)
           batches ∧
    (N `mod` b = 0 →
     Forall (λ bt, length bt = b) batches ∧ Py.chunks b out = batches).
Proof.
  intros Hrng HN Hbs.
  assert (0 < b) as Hb by lia.
  destruct (np_random_permutation N g) as [idxs g1] eqn:Hdraw.
  destruct (iter_unfold len np_random_permutation self g idxs g1 Hrng Hdraw HN Hbs)
    as (first & rest & shuffled & g' & f & Hrun & Hck & Hsh & _).
  assert (idxs ≡ₚ seq 0 N) as Hidxs.
  { specialize (Hrng N g). by rewrite Hdraw in Hrng. }
  assert (Forall (λ i, i < N) idxs) as Hin by perm_bounds Hidxs.
  assert (idxs ≠ []) as Hne.
  { intros ->. apply Permutation_length in Hidxs.
    rewrite length_seq in Hidxs. simpl in Hidxs. lia. }
  assert (first :: shuffled ≡ₚ Py.chunks b (sorted_chunks idxs)) as Hbatches
    by by rewrite Hsh.
  assert (Forall (λ i, i < N) (sorted_chunks idxs)) as Hin'
    by by rewrite (sorted_chunks_perm len self).
  exists (first ++ concat shuffled), g', (sorted_chunks idxs), (first :: shuffled).
  simpl. split; [done |]. split; [by apply sort_chunks_ok |].
  split; [done |]. split; [done |]. split.
  - rewrite Hbatches. apply Forall_forall. intros c Hc. split.
    + by eapply chunks_length_bounds.
    + eapply (StronglySorted_weaken (Py.desc key_of) _ (λ i, i < N)).
      * intros i j Hi Hj Hij. exists (key_of i), (key_of j).
        by rewrite !(key_in_range len self).
      * by eapply (Forall_chunks _ b (sorted_chunks idxs)).
      * by apply (sorted_chunks_batches_sorted idxs).
  - intros Hmod.
    assert (Forall (λ bt : list nat, length bt = b) (first :: shuffled)) as Hall.
    { rewrite Hbatches. apply Forall_forall. intros c Hc.
      eapply chunks_length_exact; [done | | exact Hc].
      rewrite (Permutation_length (sorted_chunks_perm len self idxs Hb)).
      by rewrite (Permutation_length Hidxs), length_seq. }
    split; [done |].
    change (first ++ concat shuffled) with (concat (first :: shuffled)).
    by apply chunks_concat_uniform.
Qed.

(** X21: [__iter__] cuts the permutation it draws into contiguous chunks of
    exactly [50 * bs] indices, the last one possibly shorter, sorts each of
    them by descending key ([len] of the data-source item at the index),
    and makes the order it returns of the batches of [bs] indices cut from
    the sorted chunks put end to end. *)
Theorem sortish_iter_sorts_megabatches g :
  rng_valid → 1 ≤ N → (1 ≤ SortishSampler.bs self)%Z →
  let idxs := (np_random_permutation N g).1 in
  ∃ ck_idx sorted out g' batches,
    SortishSampler.chunked idxs (SortishSampler.bs self * 50) = Ok ck_idx ∧
    concat ck_idx = idxs ∧
    (∀ j c, ck_idx !! j = Some c →
       c = Py.slice idxs (j * (50 * b)) (j * (50 * b) + 50 * b) ∧
       1 ≤ length c ≤ 50 * b ∧
       (S j < length ck_idx → length c = 50 * b)) ∧
    mapM (λ s, Py.sorted_reverse s key) ck_idx = Ok sorted ∧
    Forall2 (λ c s, s ≡ₚ c ∧ StronglySorted (λ i j, key_desc i j) s)
            ck_idx sorted ∧
    iter g = (Ok out, g') ∧
    out = concat batches ∧
    batches ≡ₚ Py.chunks b (concat sorted).
Proof.
  intros Hrng HN Hbs. cbv zeta.
  destruct (np_random_permutation N g) as [idxs g1] eqn:Hdraw. simpl.
  assert (idxs ≡ₚ seq 0 N) as Hidxs.
  { specialize (Hrng N g). by rewrite Hdraw in Hrng. }
  assert (Forall (λ i, i < N) idxs) as Hin by perm_bounds Hidxs.
  assert (idxs ≠ []) as Hne.
  { intros ->. apply Permutation_length in Hidxs.
    rewrite length_seq in Hidxs. simpl in Hidxs. lia. }
  destruct (megabatches_sorted len self idxs Hidxs Hbs)
    as (ck_idx & sorted & Hck & Hcat & Hslices & Hmap & Hsorted & _ & Hsort).
  destruct (iter_unfold len np_random_permutation self g idxs g1 Hrng Hdraw HN Hbs)
    as (first & rest & shuffled & g' & f & Hrun & Hbatches & Hsh & _).
  pose proof (sort_chunks_ok len self idxs Hin Hne Hbs) as Hok.
  rewrite (Hsort HN) in Hok. injection Hok as Hsame.
  exists ck_idx, sorted, (first ++ concat shuffled), g', (first :: shuffled).
  do 6 (split; [done |]). split; [done |].
  by rewrite Hsame, Hsh.
Qed.

(** The run of [__iter__] once the two phases have returned. *)
Lemma iter_run g idxs g1 sort_idx first rest :
  rng_valid →
  np_random_permutation N g = (idxs, g1) →
  SortishSampler.sort_chunks len self idxs = Ok sort_idx →
  SortishSampler.batches_max_first len self sort_idx = Ok (first :: rest) →
  ∃ shuffled,
    shuffled ≡ₚ rest ∧
    iter g = (Ok (first ++ concat shuffled),
              if decide (length rest = 0) then g1
              else (np_random_permutation (length rest) g1).2).
Proof.
  intros Hrng Hdraw Hsort Hbmf.
  unfold SortishSampler.__iter__, SortishSampler.permutation_int.
  run_bind. rewrite Hdraw. run_bind. unfold lift. rewrite Hsort.
  run_bind. rewrite Hbmf. run_bind.
  destruct rest as [|r rest].
  - exists []. simpl. done.
  - change (1 <? length (first :: r :: rest)) with true.
    change (drop 1 (first :: r :: rest)) with (r :: rest). cbv iota.
    unfold SortishSampler.permutation_seq, SortishSampler.permutation_int.
    unfold mbind at 1 2 3, M_bind, lift.
    destruct (np_random_permutation (length (r :: rest)) g1) as [p g2] eqn:Hp.
    assert (p ≡ₚ seq 0 (length (r :: rest))) as Hpp.
    { specialize (Hrng (length (r :: rest)) g1). by rewrite Hp in Hrng. }
    destruct (mapM_index_perm (r :: rest) p Hpp) as (ys & -> & Hys).
    exists ys. split; [done |].
    unfold Py.np_concatenate. destruct ys as [|y ys].
    { by apply Permutation_nil_cons in Hys. }
    simpl. done.
Qed.

(** X3: [__iter__] draws from the generator twice at most: the permutation
    of [range(N)], and, when there is more than one batch, one permutation
    of the [ceil(N / bs) - 1] batches behind the first. *)
Theorem sortish_iter_draws g :
  rng_valid → 1 ≤ N → (1 ≤ SortishSampler.bs self)%Z →
  let g1 := (np_random_permutation N g).2 in
  let remaining := (N + b - 1) / b - 1 in
  (iter g).2 = if decide (remaining = 0) then g1
               else (np_random_permutation remaining g1).2.
Proof.
  intros Hrng HN Hbs. simpl.
  assert (0 < b) as Hb by lia.
  destruct (np_random_permutation N g) as [idxs g1] eqn:Hdraw. simpl.
  assert (idxs ≡ₚ seq 0 N) as Hidxs.
  { specialize (Hrng N g). by rewrite Hdraw in Hrng. }
  assert (Forall (λ i, i < N) idxs) as Hin by perm_bounds Hidxs.
  assert (idxs ≠ []) as Hne.
  { intros ->. apply Permutation_length in Hidxs.
    rewrite length_seq in Hidxs. simpl in Hidxs. lia. }
  assert (length (sorted_chunks idxs) = N) as Hlen.
  { rewrite (Permutation_length (sorted_chunks_perm len self idxs Hb)).
    by rewrite (Permutation_length Hidxs), length_seq. }
  assert (Forall (λ i, i < N) (sorted_chunks idxs)) as Hin'
    by by rewrite (sorted_chunks_perm len self).
  assert (sorted_chunks idxs ≠ []) as Hne'.
  { intros Hs. rewrite Hs in Hlen. simpl in Hlen. lia. }
  destruct (batches_max_first_spec len self _ Hin' Hne' Hbs)
    as (m & a & b0 & f & Hbmf & Hm & H0 & _).
  remember (<[m:=b0]> (<[0:=a]> (Py.chunks b (sorted_chunks idxs)))) as cks.
  assert (length cks = (N + b - 1) / b) as Hcks.
  { subst cks. by rewrite !length_insert, length_chunks, Hlen. }
  destruct cks as [|first rest].
  { exfalso. apply (f_equal length) in Heqcks.
    rewrite !length_insert in Heqcks. simpl in Heqcks.
    apply lookup_lt_Some in H0. lia. }
  destruct (iter_run g idxs g1 _ first rest Hrng Hdraw
              (sort_chunks_ok len self idxs Hin Hne Hbs) Hbmf)
    as (shuffled & _ & ->).
  simpl in *. replace ((N + b - 1) / b - 1) with (length rest) by lia. done.
Qed.

Section Stability.
Context {B : Type} (f : B → nat) (k : nat).

Lemma insert_desc_filter x (l : list B) :
  filter (λ y, f y = k) (Py.insert_desc f x l) = filter (λ y, f y = k) (x :: l).
Proof.
  induction l as [|y l IH]; simpl; [done |].
  destruct (Nat.ltb_spec (f x) (f y)) as [Hlt|Hge]; [| done].
  rewrite (filter_cons _ y), IH, !filter_cons.
  destruct (decide (f y = k)), (decide (f x = k)); try done. lia.
Qed.

Lemma sort_desc_filter (l : list B) :
  filter (λ y, f y = k) (Py.sort_desc f l) = filter (λ y, f y = k) l.
Proof.
  induction l as [|x l IH]; simpl; [done |].
  by rewrite insert_desc_filter, !filter_cons, IH.
Qed.

Lemma filter_concat (P : B → Prop) `{∀ x, Decision (P x)} (ls : list (list B)) :
  filter P (concat ls) = concat (map (filter P) ls).
Proof.
  induction ls as [|l ls IH]; simpl; [done |].
  by rewrite filter_app, IH.
Qed.

End Stability.

Lemma sorted_chunks_filter k (idxs : list nat) :
  0 < b →
  filter (λ i, key_of i = k) (sorted_chunks idxs) = filter (λ i, key_of i = k) idxs.
Proof.
  intros Hb. rewrite <- (concat_chunks (b * 50) idxs) at 2 by lia.
  rewrite !filter_concat. f_equal. rewrite map_map.
  apply map_ext. intros c. apply sort_desc_filter.
Qed.

(** X4: the sort is stable across the whole of [sort_idx]: the indices that
    share a key stand in [sort_idx] in the order the random permutation gave
    them.  In particular, when every item of the data source has the same
    key, [sort_idx] is the permutation itself. *)
Theorem sortish_sort_keeps_ties (idxs : list nat) :
  idxs ≡ₚ seq 0 N → 1 ≤ N → (1 ≤ SortishSampler.bs self)%Z →
  ∃ sort_idx,
    SortishSampler.sort_chunks len self idxs = Ok sort_idx ∧
    (∀ k, filter (λ i, key_of i = k) sort_idx = filter (λ i, key_of i = k) idxs) ∧
    (∀ i, i ∈ idxs → key i = Ok (key_of i)) ∧
    (∀ k, Forall (λ a, len a = k) (SortishSampler.data_source self) →
          sort_idx = idxs).
Proof.
  intros Hperm HN Hbs.
  assert (0 < b) as Hb by lia.
  assert (Forall (λ i, i < N) idxs) as Hin by perm_bounds Hperm.
  assert (idxs ≠ []) as Hne.
  { intros ->. apply Permutation_length in Hperm.
    rewrite length_seq in Hperm. simpl in Hperm. lia. }
  exists (sorted_chunks idxs). split; [by apply sort_chunks_ok |].
  split; [intros k; by apply sorted_chunks_filter |]. split.
  - intros i Hi. apply key_in_range. rewrite Forall_forall in Hin. by apply Hin.
  - intros k Hk.
    assert (∀ l : list nat, Forall (λ i, i < N) l →
              filter (λ i, key_of i = k) l = l) as Hall.
    { intros l Hl. induction Hl as [|i l Hi _ IH]; [done |].
      rewrite filter_cons, IH. destruct (decide (key_of i = k)) as [|Hne']; [done |].
      exfalso. apply Hne'. unfold SortishSampler.key_of.
      destruct (lookup_lt_is_Some_2 _ _ Hi) as [x Hx]. rewrite Hx. simpl.
      rewrite Forall_forall in Hk. apply Hk. apply list_elem_of_lookup. eauto. }
    rewrite <- (Hall (sorted_chunks idxs));
      [| by rewrite (sorted_chunks_perm len self)].
    rewrite sorted_chunks_filter by done. by apply Hall.
Qed.

Lemma argmax_from_keeps bi bv i (l : list nat) :
  Forall (λ v, v ≤ bv) l → Py.argmax_from bi bv i l = bi.
Proof.
  intros Hl. revert i. induction Hl as [|v l Hv _ IH]; intros i; simpl; [done |].
  destruct (Nat.ltb_spec bv v); [lia | apply IH].
Qed.

(** When the first batch already begins with the largest key, the swap of
    line 163 exchanges it with itself. *)
Lemma batches_max_first_no_swap (sort_idx : list nat) f0 :
  Forall (λ i, i < N) sort_idx → sort_idx !! 0 = Some f0 →
  (1 ≤ SortishSampler.bs self)%Z →
  (∀ e, e ∈ sort_idx → key_of e ≤ key_of f0) →
  SortishSampler.batches_max_first len self sort_idx = Ok (Py.chunks b sort_idx).
Proof.
  intros Hin Hf0 Hbs Hmax. unfold SortishSampler.batches_max_first.
  rewrite chunked_ok by lia. simpl.
  assert (0 < b) as Hsz by lia.
  assert (sort_idx ≠ []) as Hne by (intros ->; done).
  rewrite (mapM_total _ (SortishSampler.first_key len self)).
  2:{ apply Forall_forall. intros c Hc.
      pose proof (chunks_nonempty _ _ _ Hsz Hc) as Hcne.
      destruct c as [|e c]; [done |]. simpl.
      unfold SortishSampler.first_key. simpl. apply key_in_range.
      assert (Forall (λ i, i < N) (e :: c)) as He by by eapply Forall_chunks.
      by inversion He. }
  rewrite chunks_cons by done. simpl.
  rewrite argmax_from_keeps.
  - simpl. unfold mret, result_ret. done.
  - apply Forall_fmap, Forall_forall. intros c Hc. simpl.
    unfold SortishSampler.first_key.
    assert (take b sort_idx !! 0 = Some f0) as ->.
    { destruct sort_idx; [done |]. destruct b; [lia | done]. }
    simpl. pose proof (chunks_nonempty _ _ _ Hsz Hc) as Hcne.
    destruct c as [|e c]; [done |]. simpl. apply Hmax.
    apply (subseteq_drop b sort_idx).
    eapply elem_of_chunks; [exact Hsz | exact Hc | by left].
Qed.

Lemma StronglySorted_take_drop {B} (R : B → B → Prop) (l : list B) k x y :
  StronglySorted R l → x ∈ take k l → y ∈ drop k l → R x y.
Proof.
  intros Hs. revert k. induction Hs as [|z l Hs IH Hz]; intros [|k]; simpl.
  - by intros ?%elem_of_nil.
  - by intros ?%elem_of_nil.
  - by intros ?%elem_of_nil.
  - intros [-> | Hx]%elem_of_cons Hy.
    + rewrite Forall_forall in Hz. apply Hz. by apply (subseteq_drop k l).
    + by eapply IH.
Qed.

(** X5: when the whole data source fits in one chunk ([N <= 50 * bs]), the
    first [bs] indices produced are the first [bs] of the permutation
    sorted by descending key, the others follow them in some order, and no
    index behind the first batch has a larger key than one inside it. *)
Theorem sortish_one_chunk_first_batch g :
  rng_valid → 1 ≤ N → (Z.of_nat N ≤ SortishSampler.bs self * 50)%Z →
  let sorted := Py.sort_desc key_of (np_random_permutation N g).1 in
  ∃ out g',
    iter g = (Ok out, g') ∧
    take b out = take b sorted ∧
    drop b out ≡ₚ drop b sorted ∧
    (∀ i j, i ∈ take b out → j ∈ drop b out → key_desc i j).
Proof.
  intros Hrng HN HNb.
  assert (1 ≤ SortishSampler.bs self)%Z as Hbs by lia.
  assert (0 < b) as Hb by lia.
  destruct (np_random_permutation N g) as [idxs g1] eqn:Hdraw. simpl.
  assert (idxs ≡ₚ seq 0 N) as Hidxs.
  { specialize (Hrng N g). by rewrite Hdraw in Hrng. }
  assert (length idxs = N) as Hlen by by rewrite Hidxs, length_seq.
  assert (idxs ≠ []) as Hne by (intros ->; simpl in *; lia).
  assert (Forall (λ i, i < N) idxs) as Hin by perm_bounds Hidxs.
  assert (sorted_chunks idxs = Py.sort_desc key_of idxs) as HS.
  { rewrite chunks_single by (done || lia). simpl. apply app_nil_r. }
  remember (Py.sort_desc key_of idxs) as S eqn:ES.
  assert (Forall (λ i, i < N) S) as HinS by (rewrite ES; by rewrite sort_desc_perm).
  assert (StronglySorted (Py.desc key_of) S) as Hsorted
    by (rewrite ES; apply sort_desc_sorted).
  destruct S as [|f0 S'].
  { exfalso. by eapply (sort_desc_nonempty key_of idxs). }
  assert (∀ e, e ∈ f0 :: S' → key_of e ≤ key_of f0) as Hmax.
  { intros e He. eapply (sort_desc_head key_of idxs); [by symmetry |].
    by rewrite ES, sort_desc_perm in He. }
  pose proof (batches_max_first_no_swap (f0 :: S') f0 HinS eq_refl Hbs Hmax) as Hbmf.
  rewrite chunks_cons in Hbmf by done.
  pose proof (sort_chunks_ok len self idxs Hin Hne Hbs) as Hsort.
  rewrite HS in Hsort.
  destruct (iter_run g idxs g1 _ _ _ Hrng Hdraw Hsort Hbmf) as (shuffled & Hsh & Hrun).
  assert (concat shuffled ≡ₚ drop b (f0 :: S')) as Hrest.
  { rewrite (concat_perm _ _ Hsh). by rewrite concat_chunks. }
  eexists _, _. split; [exact Hrun |].
  assert (take b (take b (f0 :: S') ++ concat shuffled) = take b (f0 :: S')
          ∧ drop b (take b (f0 :: S') ++ concat shuffled) = concat shuffled)
    as [Htake Hdrop].
  { destruct (decide (b ≤ length (f0 :: S'))) as [Hle|Hgt].
    - rewrite take_app_length', drop_app_length'; [done | |];
        rewrite length_take; lia.
    - assert (concat shuffled = []) as ->.
      { apply Permutation_nil_r. rewrite Hrest. by rewrite drop_ge by lia. }
      rewrite app_nil_r, take_take, drop_ge; [| rewrite length_take; lia].
      split; [f_equal; lia | done]. }
  rewrite Htake, Hdrop. split; [done |]. split; [done |].
  intros i j Hi Hj. rewrite Hrest in Hj.
  pose proof (StronglySorted_take_drop _ _ b i j Hsorted Hi Hj) as Hij.
  exists (key_of i), (key_of j).
  rewrite Forall_forall in HinS.
  rewrite !(key_in_range len self); [done | |]; apply HinS.
  - by apply (subseteq_drop b (f0 :: S')).
  - by apply (subseteq_take b (f0 :: S')).
Qed.

End SamplerMore.

(** * Further properties of the encode/cache step *)

Section EncodeMore.
Context {example : Type}.
Implicit Types (w : world (example := example)) (tok : tokenizer (example := example)).

Lemma cache_path_not_input (data_path tok_name : string) ml :
  cache_path_of data_path tok_name ml ≠ data_path.
Proof. unfold cache_path_of. apply string_app_ne_self. Qed.

(** X6: with a file at the cache path and [overwrite_cache=False],
    [encode_file] only loads that file: the tokenizer, the prefix, the
    padding flag and the data file play no part, nothing is tokenized or
    written, and a cache that is not a pickle makes the call raise. *)
Theorem encode_file_cache_hit
    tok tok' data_path ml pad pad' rt rt' prefix prefix' tok_name w :
  is_Some (fs w !! cache_path_of data_path tok_name ml) →
  encode_file tok data_path ml pad rt false prefix tok_name w
    = encode_file tok' data_path ml pad' rt' false prefix' tok_name w ∧
  encode_file tok data_path ml pad rt false prefix tok_name w
    = (match fs w !! cache_path_of data_path tok_name ml with
       | Some (PickleFile obj) => Ok obj
       | _ => Raise (UnpicklingError (cache_path_of data_path tok_name ml))
       end, w).
Proof.
  intros [f Hf].
  assert (∀ tok pad rt prefix,
            encode_file tok data_path ml pad rt false prefix tok_name w
            = torch_load (cache_path_of data_path tok_name ml) w) as Hload.
  { intros. unfold encode_file. run_bind. unfold path_exists.
    rewrite bool_decide_eq_true_2 by (rewrite Hf; eauto). done. }
  split; [by rewrite !Hload |].
  rewrite Hload. unfold torch_load. rewrite Hf. by destruct f.
Qed.

(** Reading a data file that does not exist. *)
Lemma encode_file_no_input tok data_path ml pad rt ow prefix tok_name w :
  fs w !! data_path = None →
  negb ow && bool_decide (is_Some (fs w !! cache_path_of data_path tok_name ml)) = false →
  encode_file tok data_path ml pad rt ow prefix tok_name w
    = (Raise (FileNotFoundError data_path), w).
Proof.
  intros Hdata Hskip. unfold encode_file. run_bind. unfold path_exists.
  rewrite Hskip. run_bind. unfold readlines. by rewrite Hdata.
Qed.

(** X7: when the data file does not exist and the cache is absent or to be
    overwritten, [encode_file] raises [FileNotFoundError] for the data path
    and leaves the files and the tokenizer untouched. *)
Theorem encode_file_missing_input
    tok data_path ml pad rt ow prefix tok_name w :
  fs w !! data_path = None →
  ow = true ∨ fs w !! cache_path_of data_path tok_name ml = None →
  encode_file tok data_path ml pad rt ow prefix tok_name w
    = (Raise (FileNotFoundError data_path), w).
Proof.
  intros Hdata Hcache. unfold encode_file. run_bind. unfold path_exists.
  assert (negb ow && bool_decide (is_Some (fs w !! cache_path_of data_path tok_name ml))
          = false) as ->.
  { destruct Hcache as [-> | ->]; [done |].
    rewrite bool_decide_eq_false_2; [apply andb_false_r |]. by intros [? ?]. }
  run_bind. unfold readlines. by rewrite Hdata.
Qed.

(** X8: whatever its arguments and its outcome, [encode_file] writes no
    path other than the cache path, which is never the data path: the input
    file is left as it was, and the tokenizer's calls are only added to. *)
Theorem encode_file_writes_only_cache
    tok data_path ml pad rt ow prefix tok_name w :
  let w' := (encode_file tok data_path ml pad rt ow prefix tok_name w).2 in
  cache_path_of data_path tok_name ml ≠ data_path ∧
  fs w' !! data_path = fs w !! data_path ∧
  (∀ p, p ≠ cache_path_of data_path tok_name ml → fs w' !! p = fs w !! p) ∧
  ∃ calls, tok_calls w' = tok_calls w ++ calls.
Proof.
  pose proof (cache_path_not_input data_path tok_name ml) as Hne.
  cbv zeta.
  destruct (encode_file tok data_path ml pad rt ow prefix tok_name w)
    as [r w'] eqn:Hrun.
  simpl snd.
  assert ((∀ p, p ≠ cache_path_of data_path tok_name ml → fs w' !! p = fs w !! p) ∧
          ∃ calls, tok_calls w' = tok_calls w ++ calls) as [Hfs Hcalls].
  { assert (∃ calls, tok_calls w = tok_calls w ++ calls) as Hsame
      by (exists []; by rewrite app_nil_r).
    unfold encode_file in Hrun. unfold mbind at 1, M_bind, path_exists in Hrun.
    destruct (negb ow && _) in Hrun.
    - unfold torch_load in Hrun.
      destruct (fs w !! cache_path_of data_path tok_name ml) as [[?|?]|];
        injection Hrun as <- <-; done.
    - unfold mbind at 1, M_bind, readlines in Hrun.
      destruct (fs w !! data_path) as [[lines|obj]|];
        [| injection Hrun as <- <-; done | injection Hrun as <- <-; done].
      unfold mbind at 1, M_bind in Hrun. rewrite tokenize_loop_spec in Hrun.
      unfold mbind at 1, M_bind in Hrun. simpl in Hrun.
      injection Hrun as <- <-. simpl. split.
      + intros p Hp. by rewrite lookup_insert_ne.
      + by eexists. }
  split; [done |]. split; [| done]. apply Hfs. congruence.
Qed.

(** X9: the cache path tells apart two maximal lengths for one data file
    and one tokenizer name, two data files for one maximal length and one
    tokenizer name, and the tokenizer names [""] and ["T5"] that
    [from_raw_data] uses. *)
Theorem cache_path_separates (data_path data_path' tok_name : string) (ml ml' : Z) :
  (data_path = data_path' ∧ ml ≠ ml') ∨ (data_path ≠ data_path' ∧ ml = ml') →
  cache_path_of data_path tok_name ml ≠ cache_path_of data_path' tok_name ml' ∧
  cache_path_of data_path "" ml ≠ cache_path_of data_path "T5" ml.
Proof.
  intros Hdiff. unfold cache_path_of. split.
  - destruct Hdiff as [[<- Hml] | [Hdp <-]]; intros H.
    + do 3 apply String.app_inj in H. apply string_app_inj_r in H.
      by apply (inj pretty) in H.
    + by apply string_app_inj_r in H.
  - intros H. do 2 apply String.app_inj in H.
    apply (f_equal String.length) in H.
    rewrite (string_length_app "T5") in H.
    change (String.length ("" +:+ (pretty ml +:+ ".pkl")))
      with (String.length (pretty ml +:+ ".pkl")) in H.
    simpl in H. lia.
Qed.


(** X11: what [encode_file] has encoded can be read back with [load_pt]
    from the cache path, while [load_pt] on the text file itself raises. *)
Theorem load_pt_reads_cache tok data_path ml pad rt ow prefix tok_name w lines :
  fs w !! data_path = Some (TextFile lines) →
  ow = true ∨ fs w !! cache_path_of data_path tok_name ml = None →
  ∃ examples w',
    encode_file tok data_path ml pad rt ow prefix tok_name w = (Ok examples, w') ∧
    load_pt (cache_path_of data_path tok_name ml) w' = (Ok examples, w') ∧
    load_pt data_path w' = (Raise (UnpicklingError data_path), w').
Proof.
  intros Hd Hcache. eexists _, _. split; [by apply encode_file_fresh |].
  unfold load_pt, torch_load. simpl. rewrite lookup_insert_eq.
  split; [done |].
  rewrite lookup_insert_ne by apply cache_path_not_input. by rewrite Hd.
Qed.

End EncodeMore.

(** * Further properties of the dataset *)

Section DatasetMore.
Context {example : Type}.
Implicit Types (w : world (example := example)) (tok : tokenizer (example := example)).

Local Abbreviation src_path_of data_dir type_path :=
  (path_join data_dir (type_path +:+ ".source")).
Local Abbreviation tgt_path_of data_dir type_path tgt_suffix :=
  (if String.eqb type_path "train"
   then path_join data_dir (type_path +:+ ".target" +:+ tgt_suffix)
   else path_join data_dir (type_path +:+ ".target")).
Local Abbreviation tok_name_of tok :=
  (if isinstance_BartTokenizer tok then "" else "T5").
Local Abbreviation src_prefix_of tok :=
  (if isinstance_BartTokenizer tok then "" else "summarize: ").

(** The files of the source never coincide with those of the target. *)
Lemma from_raw_data_paths (data_dir type_path tgt_suffix tok_name : string) ml ml' :
  cache_path_of (src_path_of data_dir type_path) tok_name ml
    ≠ tgt_path_of data_dir type_path tgt_suffix ∧
  cache_path_of (src_path_of data_dir type_path) tok_name ml
    ≠ cache_path_of (tgt_path_of data_dir type_path tgt_suffix) tok_name ml' ∧
  src_path_of data_dir type_path ≠ tgt_path_of data_dir type_path tgt_suffix.
Proof.
  destruct (path_join_extension data_dir type_path) as [pre Hjoin].
  assert (src_path_of data_dir type_path = pre +:+ (type_path +:+ (".source" +:+ "")))
    as Esrc by apply (Hjoin "source").
  assert (∃ sfx, tgt_path_of data_dir type_path tgt_suffix
                 = pre +:+ (type_path +:+ (".target" +:+ sfx))) as [sfx Etgt].
  { destruct (String.eqb type_path "train").
    - exists tgt_suffix. apply (Hjoin ("target" +:+ tgt_suffix)).
    - exists "". apply (Hjoin "target"). }
  unfold cache_path_of. rewrite Esrc, Etgt. rewrite !string_app_assoc.
  repeat split; apply source_target_paths_differ.
Qed.

(** A first run of [from_raw_data], on files that are not cached. *)
Lemma from_raw_data_fresh
    tok data_dir type_path msl mtl n_obs ow tgt_suffix w src_lines tgt_lines :
  fs w !! src_path_of data_dir type_path = Some (TextFile src_lines) →
  fs w !! tgt_path_of data_dir type_path tgt_suffix = Some (TextFile tgt_lines) →
  ow = true ∨
  (fs w !! cache_path_of (src_path_of data_dir type_path) (tok_name_of tok) msl = None ∧
   fs w !! cache_path_of (tgt_path_of data_dir type_path tgt_suffix) (tok_name_of tok) mtl
     = None) →
  from_raw_data tok data_dir type_path msl mtl n_obs ow tgt_suffix w =
  (Ok (__init__ (map (encode_line tok msl true "pt" (src_prefix_of tok)) src_lines)
                (map (encode_line tok mtl true "pt" "") tgt_lines) msl mtl n_obs),
   {| fs :=
        <[cache_path_of (tgt_path_of data_dir type_path tgt_suffix) (tok_name_of tok) mtl
            := PickleFile (map (encode_line tok mtl true "pt" "") tgt_lines)]>
          (<[cache_path_of (src_path_of data_dir type_path) (tok_name_of tok) msl
               := PickleFile (map (encode_line tok msl true "pt" (src_prefix_of tok))
                                  src_lines)]> (fs w));
      tok_calls := tok_calls w ++
        map (call_of msl true "pt" (src_prefix_of tok)) src_lines ++
        map (call_of mtl true "pt" "") tgt_lines |}).
Proof.
  intros Hsrc Htgt Hcache.
  destruct (from_raw_data_paths data_dir type_path tgt_suffix (tok_name_of tok) msl mtl)
    as (Hne1 & Hne2 & _).
  unfold from_raw_data.
  assert ((if negb (isinstance_BartTokenizer tok) then "T5" else "") = tok_name_of tok)
    as -> by (by destruct (isinstance_BartTokenizer tok)).
  assert ((if String.eqb (tok_name_of tok) "T5" then T5_PREFIX else "")
          = src_prefix_of tok)
    as -> by (by destruct (isinstance_BartTokenizer tok)).
  run_bind. rewrite (encode_file_fresh _ _ _ _ _ _ _ _ _ src_lines) by tauto.
  run_bind. rewrite (encode_file_fresh _ _ _ _ _ _ _ _ _ tgt_lines).
  - simpl. by rewrite <- app_assoc.
  - simpl. by rewrite lookup_insert_ne.
  - simpl. destruct Hcache as [-> | [_ Hc]]; [by left | right].
    by rewrite lookup_insert_ne.
Qed.

(** X12: a second [from_raw_data] on the same files with
    [overwrite_cache=False] tokenizes nothing and changes nothing, and for
    any tokenizer of the same kind (Bart or not) it returns the encodings
    the first tokenizer made; [n_obs] alone decides how many are kept. *)
Theorem from_raw_data_reuses_cache
    tok data_dir type_path msl mtl n_obs ow tgt_suffix w src_lines tgt_lines :
  fs w !! src_path_of data_dir type_path = Some (TextFile src_lines) →
  fs w !! tgt_path_of data_dir type_path tgt_suffix = Some (TextFile tgt_lines) →
  ow = true ∨
  (fs w !! cache_path_of (src_path_of data_dir type_path) (tok_name_of tok) msl = None ∧
   fs w !! cache_path_of (tgt_path_of data_dir type_path tgt_suffix) (tok_name_of tok) mtl
     = None) →
  ∃ ds w',
    from_raw_data tok data_dir type_path msl mtl n_obs ow tgt_suffix w = (Ok ds, w') ∧
    ∀ tok2 n_obs2,
      isinstance_BartTokenizer tok2 = isinstance_BartTokenizer tok →
      from_raw_data tok2 data_dir type_path msl mtl n_obs2 false tgt_suffix w' =
      (Ok (__init__
             (map (λ line, batch_encode_plus tok [src_prefix_of tok +:+ strip line]
                             msl true true "pt") src_lines)
             (map (λ line, batch_encode_plus tok [strip line] mtl true true "pt")
                  tgt_lines)
             msl mtl n_obs2), w').
Proof.
  intros Hsrc Htgt Hcache. eexists _, _.
  split; [by apply from_raw_data_fresh |].
  intros tok2 n_obs2 Hkind.
  destruct (from_raw_data_paths data_dir type_path tgt_suffix (tok_name_of tok) msl mtl)
    as (_ & Hne2 & _).
  unfold from_raw_data. rewrite Hkind.
  assert ((if negb (isinstance_BartTokenizer tok) then "T5" else "") = tok_name_of tok)
    as -> by (by destruct (isinstance_BartTokenizer tok)).
  run_bind. erewrite encode_file_cached.
  2:{ simpl. rewrite lookup_insert_ne by done. apply lookup_insert_eq. }
  run_bind. erewrite encode_file_cached.
  2:{ simpl. apply lookup_insert_eq. }
  reflexivity.
Qed.

(** X13: [n_obs] is applied after the files are encoded: the caches hold
    the encodings of all the lines, while the dataset keeps the first
    [n_obs] of them on each side. *)
Theorem from_raw_data_truncates_after_caching
    tok data_dir type_path msl mtl (n : Z) ow tgt_suffix w src_lines tgt_lines :
  fs w !! src_path_of data_dir type_path = Some (TextFile src_lines) →
  fs w !! tgt_path_of data_dir type_path tgt_suffix = Some (TextFile tgt_lines) →
  ow = true ∨
  (fs w !! cache_path_of (src_path_of data_dir type_path) (tok_name_of tok) msl = None ∧
   fs w !! cache_path_of (tgt_path_of data_dir type_path tgt_suffix) (tok_name_of tok) mtl
     = None) →
  (0 ≤ n)%Z →
  ∃ ds w' src_all tgt_all,
    from_raw_data tok data_dir type_path msl mtl (Some n) ow tgt_suffix w = (Ok ds, w') ∧
    fs w' !! cache_path_of (src_path_of data_dir type_path) (tok_name_of tok) msl
      = Some (PickleFile src_all) ∧
    fs w' !! cache_path_of (tgt_path_of data_dir type_path tgt_suffix) (tok_name_of tok) mtl
      = Some (PickleFile tgt_all) ∧
    length src_all = length src_lines ∧
    length tgt_all = length tgt_lines ∧
    source ds = take (Z.to_nat n) src_all ∧
    target ds = take (Z.to_nat n) tgt_all ∧
    __len__ ds = Nat.min (Z.to_nat n) (length src_lines).
Proof.
  intros Hsrc Htgt Hcache Hn.
  destruct (from_raw_data_paths data_dir type_path tgt_suffix (tok_name_of tok) msl mtl)
    as (_ & Hne2 & _).
  eexists _, _, _, _. split; [by apply from_raw_data_fresh |].
  simpl. split; [| split].
  - rewrite lookup_insert_ne by done. apply lookup_insert_eq.
  - apply lookup_insert_eq.
  - unfold __len__, __init__, Py.slice_to. simpl.
    destruct (Z.leb_spec 0 n); [| lia]. simpl.
    rewrite length_take, !length_map. done.
Qed.

(** X14: a missing file makes [from_raw_data] raise [FileNotFoundError].
    When it is the source file nothing has happened; when it is the target
    file the source has been tokenized and its cache written already. *)
Theorem from_raw_data_missing_file
    tok data_dir type_path msl mtl n_obs ow tgt_suffix w :
  ow = true ∨
  (fs w !! cache_path_of (src_path_of data_dir type_path) (tok_name_of tok) msl = None ∧
   fs w !! cache_path_of (tgt_path_of data_dir type_path tgt_suffix) (tok_name_of tok) mtl
     = None) →
  (fs w !! src_path_of data_dir type_path = None →
   from_raw_data tok data_dir type_path msl mtl n_obs ow tgt_suffix w
     = (Raise (FileNotFoundError (src_path_of data_dir type_path)), w)) ∧
  (∀ src_lines,
     fs w !! src_path_of data_dir type_path = Some (TextFile src_lines) →
     fs w !! tgt_path_of data_dir type_path tgt_suffix = None →
     from_raw_data tok data_dir type_path msl mtl n_obs ow tgt_suffix w
       = (Raise (FileNotFoundError (tgt_path_of data_dir type_path tgt_suffix)),
          {| fs :=
               <[cache_path_of (src_path_of data_dir type_path) (tok_name_of tok) msl
                   := PickleFile (map (encode_line tok msl true "pt" (src_prefix_of tok))
                                      src_lines)]> (fs w);
             tok_calls := tok_calls w ++
               map (call_of msl true "pt" (src_prefix_of tok)) src_lines |})).
Proof.
  intros Hcache.
  destruct (from_raw_data_paths data_dir type_path tgt_suffix (tok_name_of tok) msl mtl)
    as (Hne1 & Hne2 & _).
  assert ((if negb (isinstance_BartTokenizer tok) then "T5" else "") = tok_name_of tok)
    as Hname by (by destruct (isinstance_BartTokenizer tok)).
  assert ((if String.eqb (tok_name_of tok) "T5" then T5_PREFIX else "")
          = src_prefix_of tok)
    as Hprefix by (by destruct (isinstance_BartTokenizer tok)).
  split.
  - intros Hsrc. unfold from_raw_data. rewrite Hname, Hprefix.
    run_bind. rewrite encode_file_no_input; [done | done |].
    destruct Hcache as [-> | [-> _]]; [done |].
    rewrite bool_decide_eq_false_2; [apply andb_false_r | by intros [? ?]].
  - intros src_lines Hsrc Htgt. unfold from_raw_data. rewrite Hname, Hprefix.
    run_bind. rewrite (encode_file_fresh _ _ _ _ _ _ _ _ _ src_lines) by tauto.
    run_bind. rewrite encode_file_no_input; [done | |].
    + simpl. by rewrite lookup_insert_ne.
    + simpl. destruct Hcache as [-> | [_ Hc]]; [done |].
      rewrite lookup_insert_ne by done. rewrite Hc.
      rewrite bool_decide_eq_false_2; [apply andb_false_r | by intros [? ?]].
Qed.

(** X15: [__init__] keeps the pairs together: for source and target lists
    of one length it keeps the same number [k] of leading examples on both
    sides, for every [n_obs]; a non-negative [n_obs] keeps
    [min(n_obs, len)] pairs and a negative one drops the last [-n_obs]. *)
Theorem init_keeps_pairs (source0 target0 : list example) msl mtl (n_obs : option Z) :
  length source0 = length target0 →
  let ds := __init__ source0 target0 msl mtl n_obs in
  ∃ k,
    source ds = take k source0 ∧ target ds = take k target0 ∧
    length (source ds) = length (target ds) ∧
    __len__ ds = k ∧
    Z.of_nat k =
      match n_obs with
      | None => Z.of_nat (length source0)
      | Some n =>
          if (0 <=? n)%Z then Z.min n (Z.of_nat (length source0))
          else Z.max 0 (Z.of_nat (length source0) + n)
      end.
Proof.
  intros Hlen. simpl. unfold __len__, __init__, Py.slice_to.
  destruct n_obs as [n|]; simpl.
  - rewrite <- Hlen. destruct (Z.leb_spec 0 n).
    + exists (Nat.min (Z.to_nat n) (length source0)).
      rewrite !length_take, <- Hlen.
      repeat split; try lia.
      * destruct (Nat.min_spec (Z.to_nat n) (length source0)) as [[? ->]|[? ->]];
          [done | by rewrite !take_ge by lia].
      * destruct (Nat.min_spec (Z.to_nat n) (length source0)) as [[? ->]|[? ->]];
          [done | by rewrite !take_ge by lia].
    + exists (Z.to_nat (Z.of_nat (length source0) + n)).
      rewrite !length_take, <- Hlen. repeat split; lia.
  - exists (length source0). rewrite !take_ge by lia. repeat split; lia.
Qed.

End DatasetMore.

(** * Indexed access and collation *)

Section ItemsMore.

Lemma list_getitem_in_range {B} (l : list B) (i : Z) :
  (- Z.of_nat (length l) ≤ i < Z.of_nat (length l))%Z →
  ∃ x, list_getitem l i = Got x ∧
       l !! Z.to_nat (if (i <? 0)%Z then i + Z.of_nat (length l) else i)%Z = Some x.
Proof.
  intros Hi. unfold list_getitem.
  set (j := (if (i <? 0)%Z then i + Z.of_nat (length l) else i)%Z).
  assert (0 ≤ j < Z.of_nat (length l))%Z as Hj.
  { unfold j. destruct (Z.ltb_spec i 0); lia. }
  destruct (Z.leb_spec 0 j); [| lia]. destruct (Z.ltb_spec j (Z.of_nat (length l))); [| lia].
  simpl. destruct (lookup_lt_is_Some_2 l (Z.to_nat j)) as [x Hx]; [lia |].
  rewrite Hx. eauto.
Qed.

Lemma list_getitem_out_of_range {B} (l : list B) (i : Z) :
  ¬ (- Z.of_nat (length l) ≤ i < Z.of_nat (length l))%Z →
  list_getitem l i = Missing SubscriptIndexError.
Proof.
  intros Hi. unfold list_getitem.
  destruct (Z.ltb_spec i 0).
  - destruct (Z.leb_spec 0 (i + Z.of_nat (length l)));
      destruct (Z.ltb_spec (i + Z.of_nat (length l)) (Z.of_nat (length l)));
      simpl; try done; lia.
  - destruct (Z.leb_spec 0 i); destruct (Z.ltb_spec i (Z.of_nat (length l)));
      simpl; try done; lia.
Qed.

Lemma torch_stack_inv (ts : list tensor1) :
  match torch_stack ts with
  | Ok r => r = ts ∧ ts ≠ [] ∧ ∃ n, Forall (λ t, length t = n) ts
  | Raise e => (∃ msg, e = RuntimeError msg) ∧
               ¬ (ts ≠ [] ∧ ∃ n, Forall (λ t, length t = n) ts)
  end.
Proof.
  destruct ts as [|t0 ts]; simpl.
  - split; [by eexists |]. by intros [? _].
  - destruct (forallb (λ t, length t =? length t0) ts) eqn:Hall.
    + split; [done |]. split; [done |]. exists (length t0).
      constructor; [done |]. apply Forall_forall. intros t Ht.
      rewrite forallb_forall in Hall. apply Nat.eqb_eq, Hall.
      by apply list_elem_of_In.
    + split; [by eexists |]. intros [_ [n Hn]].
      apply Forall_cons in Hn as [Hn0 Hn].
      assert (forallb (λ t, length t =? length t0) ts = true); [| congruence].
      apply forallb_forall. intros t Ht%list_elem_of_In.
      rewrite Forall_forall in Hn. apply Nat.eqb_eq. rewrite Hn0. by apply Hn.
Qed.

Context (self : SummarizationDataset (example := gmap string tensor)).

Lemma getitem_in_range (i : nat) :
  Forall (λ d, is_Some (d !! "input_ids") ∧ is_Some (d !! "attention_mask"))
         (source self) →
  Forall (λ d, is_Some (d !! "input_ids")) (target self) →
  i < length (source self) → i < length (target self) →
  ∃ it, __getitem__ self (Z.of_nat i) = Got it.
Proof.
  intros Hsrc Htgt Hs Ht.
  unfold __getitem__, mbind, subscript_bind, mret, subscript_ret, dict_getitem.
  destruct (list_getitem_in_range (source self) (Z.of_nat i)) as (ds & -> & Hds);
    [lia |].
  destruct (list_getitem_in_range (target self) (Z.of_nat i)) as (dt & -> & Hdt);
    [lia |].
  apply list_elem_of_lookup_2 in Hds, Hdt. rewrite Forall_forall in Hsrc, Htgt.
  destruct (Hsrc ds Hds) as [[ts ->] [tm ->]]. destruct (Htgt dt Hdt) as [tt ->].
  by eexists.
Qed.

(** X16: for examples that hold the tensors [__getitem__] reads,
    [__getitem__] returns an item exactly when the index is valid for the
    source list and for the target list (negative indices counting from the
    end of each); otherwise it raises [IndexError].  So an index below
    [len(dataset)] still raises when the target list is shorter. *)
Theorem getitem_succeeds_iff (index : Z) :
  Forall (λ d, is_Some (d !! "input_ids") ∧ is_Some (d !! "attention_mask"))
         (source self) →
  Forall (λ d, is_Some (d !! "input_ids")) (target self) →
  let in_source := (- Z.of_nat (length (source self)) ≤ index
                    < Z.of_nat (length (source self)))%Z in
  let in_target := (- Z.of_nat (length (target self)) ≤ index
                    < Z.of_nat (length (target self)))%Z in
  match __getitem__ self index with
  | Got _ => in_source ∧ in_target
  | Missing e => e = SubscriptIndexError ∧ ¬ (in_source ∧ in_target)
  end.
Proof.
  intros Hsrc Htgt. simpl.
  unfold __getitem__, mbind, subscript_bind, mret, subscript_ret, dict_getitem.
  destruct (decide (- Z.of_nat (length (source self)) ≤ index
                    < Z.of_nat (length (source self)))%Z) as [Hs|Hs].
  2:{ rewrite (list_getitem_out_of_range _ _ Hs). split; [done | tauto]. }
  destruct (list_getitem_in_range _ _ Hs) as (ds & -> & Hds).
  apply list_elem_of_lookup_2 in Hds. rewrite Forall_forall in Hsrc.
  destruct (Hsrc ds Hds) as [[ts Hts] [tm Htm]]. rewrite Hts, Htm.
  destruct (decide (- Z.of_nat (length (target self)) ≤ index
                    < Z.of_nat (length (target self)))%Z) as [Ht|Ht].
  2:{ rewrite (list_getitem_out_of_range _ _ Ht). split; [done | tauto]. }
  destruct (list_getitem_in_range _ _ Ht) as (dt & -> & Hdt).
  apply list_elem_of_lookup_2 in Hdt. rewrite Forall_forall in Htgt.
  destruct (Htgt dt Hdt) as [tt Htt]. rewrite Htt. done.
Qed.

Lemma getitem_rows (i : nat) Ls Lt ds dt :
  source self !! i = Some ds → target self !! i = Some dt →
  has_row "input_ids" Ls ds → has_row "attention_mask" Ls ds →
  has_row "input_ids" Lt dt → Ls ≠ 1 → Lt ≠ 1 →
  ∃ it,
    __getitem__ self (Z.of_nat i) = Got it ∧
    shape (item_input_ids it) = [Ls] ∧ length (entries (item_input_ids it)) = Ls ∧
    shape (item_attention_mask it) = [Ls] ∧
    length (entries (item_attention_mask it)) = Ls ∧
    shape (item_decoder_input_ids it) = [Lt] ∧
    length (entries (item_decoder_input_ids it)) = Lt ∧
    Some (entries (item_input_ids it)) = entries <$> ds !! "input_ids" ∧
    Some (entries (item_attention_mask it)) = entries <$> ds !! "attention_mask" ∧
    Some (entries (item_decoder_input_ids it)) = entries <$> dt !! "input_ids".
Proof.
  intros Hds Hdt (ts & Hts & Hsts & Hlts) (tm & Htm & Hstm & Hltm)
         (tt & Htt & Hstt & Hltt) HLs HLt.
  assert (∀ (l : list (gmap string tensor)) d,
            l !! i = Some d → list_getitem l (Z.of_nat i) = Got d) as Hget.
  { intros l d Hd. unfold list_getitem.
    pose proof (lookup_lt_Some _ _ _ Hd).
    destruct (Z.ltb_spec (Z.of_nat i) 0); [lia |].
    destruct (Z.leb_spec 0 (Z.of_nat i)); [| lia].
    destruct (Z.ltb_spec (Z.of_nat i) (Z.of_nat (length l))); [| lia].
    simpl. by rewrite Nat2Z.id, Hd. }
  assert (∀ L, L ≠ 1 → filter (λ d, d ≠ 1) [1; L] = [L]) as Hsq.
  { intros L HL. rewrite filter_cons_False by (intros ?; done).
    by rewrite filter_cons_True. }
  eexists. split.
  { unfold __getitem__, mbind, subscript_bind, mret, subscript_ret, dict_getitem.
    rewrite (Hget _ _ Hds), (Hget _ _ Hdt), Hts, Htt, Htm. reflexivity. }
  simpl. rewrite Hsts, Hstm, Hstt, Hts, Htm, Htt, !Hsq by done. done.
Qed.

(** X17: items fetched with [__getitem__] can be collated.  When every
    source example holds ids and mask of shape [(1, Ls)] and every target
    example ids of shape [(1, Lt)], with [Ls] and [Lt] other than 1, then for
    any non-empty list of valid indices [__getitem__] returns tensors of
    shape [(Ls,)], [(Ls,)] and [(Lt,)] holding the entries of the examples,
    and [collate_fn] stacks them without an exception. *)
Theorem getitem_then_collate
    (trim_batch : tensor2 → Z → tensor2)
    (trim_batch_with_mask : tensor2 → Z → tensor2 → tensor2 * tensor2)
    Ls Lt (idx : list nat) :
  Forall (λ d, has_row "input_ids" Ls d ∧ has_row "attention_mask" Ls d)
         (source self) →
  Forall (has_row "input_ids" Lt) (target self) →
  Ls ≠ 1 → Lt ≠ 1 → idx ≠ [] →
  Forall (λ i, i < length (source self) ∧ i < length (target self)) idx →
  ∃ gitems out,
    Forall2 (λ i it, __getitem__ self (Z.of_nat i) = Got it) idx gitems ∧
    Forall (λ it, shape (item_input_ids it) = [Ls] ∧
                  shape (item_attention_mask it) = [Ls] ∧
                  shape (item_decoder_input_ids it) = [Lt]) gitems ∧
    Forall2 (λ i it, ∃ ds dt,
               source self !! i = Some ds ∧ target self !! i = Some dt ∧
               Some (entries (item_input_ids it)) = entries <$> ds !! "input_ids" ∧
               Some (entries (item_attention_mask it))
                 = entries <$> ds !! "attention_mask" ∧
               Some (entries (item_decoder_input_ids it))
                 = entries <$> dt !! "input_ids") idx gitems ∧
    collate_fn trim_batch trim_batch_with_mask self (map item_of gitems) = Ok out.
Proof.
  intros Hsrc Htgt HLs HLt Hne Hidx.
  assert (∃ gitems,
            Forall2 (λ i it,
              __getitem__ self (Z.of_nat i) = Got it ∧
              (shape (item_input_ids it) = [Ls] ∧
               shape (item_attention_mask it) = [Ls] ∧
               shape (item_decoder_input_ids it) = [Lt]) ∧
              (length (entries (item_input_ids it)) = Ls ∧
               length (entries (item_attention_mask it)) = Ls ∧
               length (entries (item_decoder_input_ids it)) = Lt) ∧
              ∃ ds dt,
                source self !! i = Some ds ∧ target self !! i = Some dt ∧
                Some (entries (item_input_ids it)) = entries <$> ds !! "input_ids" ∧
                Some (entries (item_attention_mask it))
                  = entries <$> ds !! "attention_mask" ∧
                Some (entries (item_decoder_input_ids it))
                  = entries <$> dt !! "input_ids") idx gitems) as [gitems Hall].
  { clear Hne. induction Hidx as [|i idx [Hi1 Hi2] _ [gitems IH]]; [by exists [] |].
    destruct (lookup_lt_is_Some_2 _ _ Hi1) as [ds Hds].
    destruct (lookup_lt_is_Some_2 _ _ Hi2) as [dt Hdt].
    rewrite Forall_forall in Hsrc, Htgt.
    destruct (Hsrc ds (list_elem_of_lookup_2 _ _ _ Hds)) as [Hr1 Hr2].
    pose proof (Htgt dt (list_elem_of_lookup_2 _ _ _ Hdt)) as Hr3.
    destruct (getitem_rows i Ls Lt ds dt Hds Hdt Hr1 Hr2 Hr3 HLs HLt)
      as (it & Hit & ? & ? & ? & ? & ? & ? & ? & ? & ?).
    exists (it :: gitems). constructor; [| done].
    split; [done |]. split; [done |]. split; [done |]. by exists ds, dt. }
  assert (gitems ≠ []) as Hgne.
  { intros ->. apply Forall2_length in Hall. by destruct idx. }
  assert (Forall (λ it, length (entries (item_input_ids it)) = Ls ∧
                        length (entries (item_attention_mask it)) = Ls ∧
                        length (entries (item_decoder_input_ids it)) = Lt) gitems)
    as Hlens.
  { clear -Hall. induction Hall as [|i it idx gitems (_ & _ & Hl & _) _ IH];
      by constructor. }
  assert (∃ out, collate_fn trim_batch trim_batch_with_mask self (map item_of gitems)
                 = Ok out) as [out Hout].
  { assert (Forall (λ t, length t = Ls) (map input_ids (map item_of gitems)) ∧
            Forall (λ t, length t = Ls) (map attention_mask (map item_of gitems)) ∧
            Forall (λ t, length t = Lt) (map decoder_input_ids (map item_of gitems)))
      as (H1 & H2 & H3).
    { clear -Hlens. induction Hlens as [|it gitems (? & ? & ?) _ (? & ? & ?)];
        simpl; repeat split; by constructor. }
    unfold collate_fn.
    assert (map input_ids (map item_of gitems) ≠ []) as N1 by by destruct gitems.
    assert (map attention_mask (map item_of gitems) ≠ []) as N2 by by destruct gitems.
    assert (map decoder_input_ids (map item_of gitems) ≠ []) as N3
      by by destruct gitems.
    rewrite (torch_stack_ok _ Ls N1 H1), (torch_stack_ok _ Ls N2 H2),
      (torch_stack_ok _ Lt N3 H3).
    simpl. destruct (trim_batch_with_mask _ _ _). by eexists. }
  exists gitems, out. split; [| split; [| split]]; [| | | done].
  - eapply Forall2_impl; [exact Hall |]. by intros ? ? (? & _).
  - clear -Hall. induction Hall as [|i it idx gitems (_ & Hs & _) _ IH];
      by constructor.
  - eapply Forall2_impl; [exact Hall |]. by intros ? ? (_ & _ & _ & ?).
Qed.

End ItemsMore.

Section CollateMore.
Context {example : Type} (self : SummarizationDataset (example := example)).
Context (trim_batch : tensor2 → Z → tensor2).
Context (trim_batch_with_mask : tensor2 → Z → tensor2 → tensor2 * tensor2).

(** X18: [collate_fn] returns a batch exactly when the list of items is not
    empty and the items agree on the width of each of the three fields;
    otherwise [torch.stack] makes it raise a [RuntimeError]. *)
Theorem collate_fn_ok_iff (items : list item) :
  match collate_fn trim_batch trim_batch_with_mask self items with
  | Ok _ => stackable items
  | Raise e => (∃ msg, e = RuntimeError msg) ∧ ¬ stackable items
  end.
Proof.
  assert (∀ (f : item → tensor1) n,
            Forall (λ t, length t = n) (map f items) →
            Forall (λ x, length (f x) = n) items) as Hmap.
  { intros f n H. by apply Forall_fmap in H. }
  assert (∀ (f : item → tensor1),
            (∃ n, Forall (λ x, length (f x) = n) items) →
            ∃ n, Forall (λ t, length t = n) (map f items)) as Hmap'.
  { intros f [n H]. exists n. by apply Forall_fmap. }
  assert (∀ f : item → tensor1, map f items ≠ [] → items ≠ []) as Hne
    by (intros f H ->; done).
  assert (∀ f : item → tensor1, items ≠ [] → map f items ≠ []) as Hne'
    by (intros f H; by destruct items).
  unfold collate_fn.
  pose proof (torch_stack_inv (map input_ids items)) as H1.
  destruct (torch_stack (map input_ids items)) as [r1|e1]; simpl.
  2:{ destruct H1 as [Hmsg Hno]. split; [done |].
      intros (Hi & Ha & _). apply Hno. split; [by apply Hne' | by apply Hmap']. }
  destruct H1 as (-> & Hn1 & [n1 Ha1]).
  pose proof (torch_stack_inv (map attention_mask items)) as H2.
  destruct (torch_stack (map attention_mask items)) as [r2|e2]; simpl.
  2:{ destruct H2 as [Hmsg Hno]. split; [done |].
      intros (Hi & _ & Ha & _). apply Hno. split; [by apply Hne' | by apply Hmap']. }
  destruct H2 as (-> & Hn2 & [n2 Ha2]).
  pose proof (torch_stack_inv (map decoder_input_ids items)) as H3.
  destruct (torch_stack (map decoder_input_ids items)) as [r3|e3]; simpl.
  2:{ destruct H3 as [Hmsg Hno]. split; [done |].
      intros (Hi & _ & _ & Ha). apply Hno. split; [by apply Hne' | by apply Hmap']. }
  destruct H3 as (-> & Hn3 & [n3 Ha3]).
  destruct (trim_batch_with_mask _ _ _). simpl.
  split; [by eapply Hne |]. eauto 10.
Qed.

End CollateMore.

Section SamplerOfDataset.
Context {rng : Type} (np_random_permutation : nat → rng → list nat * rng).

(** X19: the sampler a dataset makes walks over the dataset: its key is the
    entry of [src_lens] at the index, its length is the dataset's, and for a
    dataset that is not empty its order is a permutation of
    [range(len(dataset))]. *)
Theorem make_sortish_sampler_covers_dataset
    {example} (len : example → nat)
    (self : SummarizationDataset (example := example)) (batch_size : Z) g :
  SortishSampler.rng_valid np_random_permutation →
  1 ≤ __len__ self → (1 ≤ batch_size)%Z →
  let sampler := make_sortish_sampler self batch_size in
  SortishSampler.__len__ sampler = __len__ self ∧
  length (src_lens len self) = __len__ self ∧
  (∀ i, SortishSampler.key len sampler i
        = match src_lens len self !! i with
          | Some k => Ok k
          | None => Raise IndexError
          end) ∧
  ∃ out g',
    SortishSampler.__iter__ len np_random_permutation sampler g = (Ok out, g') ∧
    out ≡ₚ seq 0 (__len__ self).
Proof.
  intros Hrng HN Hbs. simpl. split; [done |]. split.
  { unfold src_lens, lmap. by rewrite length_map. }
  split.
  { intros i. unfold SortishSampler.key, Py.index, src_lens, lmap. simpl.
    rewrite list_lookup_fmap. by destruct (source self !! i). }
  apply (iter_output_range len np_random_permutation
           (make_sortish_sampler self batch_size) g Hrng); done.
Qed.

(** X20: every index the sampler of a dataset yields can be fetched.  For a
    dataset of dicts with as many target as source examples, each holding
    the tensors that are read, [__getitem__] returns an item for every
    index of the produced order. *)
Theorem sampler_indices_are_fetchable
    (self : SummarizationDataset (example := gmap string tensor))
    (batch_size : Z) g :
  SortishSampler.rng_valid np_random_permutation →
  Forall (λ d, is_Some (d !! "input_ids") ∧ is_Some (d !! "attention_mask"))
         (source self) →
  Forall (λ d, is_Some (d !! "input_ids")) (target self) →
  length (source self) = length (target self) →
  1 ≤ __len__ self → (1 ≤ batch_size)%Z →
  ∃ out g',
    SortishSampler.__iter__ dict_len np_random_permutation
      (make_sortish_sampler self batch_size) g = (Ok out, g') ∧
    length out = __len__ self ∧
    Forall (λ i, ∃ it, __getitem__ self (Z.of_nat i) = Got it) out.
Proof.
  intros Hrng Hsrc Htgt Hlen HN Hbs.
  destruct (iter_output_range dict_len np_random_permutation
              (make_sortish_sampler self batch_size) g Hrng HN Hbs)
    as (out & g' & Hrun & Hperm).
  exists out, g'. split; [done |]. simpl in Hperm. split.
  { by rewrite Hperm, length_seq. }
  rewrite Hperm. apply Forall_forall. intros i Hi%elem_of_seq.
  apply getitem_in_range; try done; unfold __len__ in *; lia.
Qed.

End SamplerOfDataset.

(** C3: the sort key is not the source sequence length.  The key of an
    index is [len] of the encoding at that index, and an encoding is a dict
    of the two tensors ["input_ids"] and ["attention_mask"], so the key is
    2, the number of fields, whatever the tokens are.  For three sources of
    2, 5 and 3 tokens, the sort in the single chunk moves nothing and
    [__iter__] returns the drawn permutation [2; 0; 1]: the source of 2
    tokens comes before the source of 5 tokens. *)
Theorem sortish_key_is_field_count :
  let sampler := make_sortish_sampler demo_padded_dataset 2 in
  (∀ ids mask, dict_len (demo_encoding ids mask) = 2) ∧
  map token_count (source demo_padded_dataset) = [2; 5; 3] ∧
  map (SortishSampler.key dict_len sampler) [0; 1; 2] = [Ok 2; Ok 2; Ok 2] ∧
  src_lens dict_len demo_padded_dataset = [2; 2; 2] ∧
  (rotate_rng 3 2).1 = [2; 0; 1] ∧
  SortishSampler.chunked [2; 0; 1] (2 * 50) = Ok [[2; 0; 1]] ∧
  SortishSampler.sort_chunks dict_len sampler [2; 0; 1] = Ok [2; 0; 1] ∧
  SortishSampler.__iter__ dict_len rotate_rng sampler 2 = (Ok [2; 0; 1], 4) ∧
  map (λ i, token_count <$> source demo_padded_dataset !! i) [2; 0; 1]
    = [Some 3; Some 2; Some 5].
Proof.
  cbv zeta. split.
  { intros ids mask. unfold dict_len, demo_encoding.
    rewrite map_size_insert_None by (by vm_compute).
    by rewrite map_size_singleton. }
  repeat split; vm_compute; reflexivity.
Qed.

(** ** The further properties at the concrete inputs *)

Lemma sortish_iter_succeeds_iff_witness :
  SortishSampler.rng_valid rotate_rng ∧
  1 ≤ length (SortishSampler.data_source demo_sampler) ∧
  (1 ≤ SortishSampler.bs demo_sampler)%Z.
Proof.
  split; [exact rotate_rng_valid |].
  exact (sortish_iter_succeeds_iff length rotate_rng demo_sampler 2 rotate_rng_valid).
Defined.

Lemma sortish_iter_keeps_batches_witness :
  ∃ out batches,
    (SortishSampler.__iter__ length rotate_rng demo_sampler 2).1 = Ok out ∧
    out = concat batches ∧
    batches ≡ₚ Py.chunks 3 [5; 4; 2; 0; 6; 3; 1].
Proof.
  destruct (sortish_iter_keeps_batches length rotate_rng demo_sampler 2
              rotate_rng_valid)
    as (out & g' & sort_idx & batches & Hrun & Hsort & Hout & Hperm & _);
    [simpl; lia | simpl; lia |].
  exists out, batches. rewrite Hrun. split; [reflexivity |]. split; [exact Hout |].
  vm_compute in Hsort. injection Hsort as <-. exact Hperm.
Defined.

Lemma sortish_iter_draws_witness :
  (SortishSampler.__iter__ length rotate_rng demo_sampler 2).2
  = (rotate_rng 2 (rotate_rng 7 2).2).2.
Proof.
  apply (sortish_iter_draws length rotate_rng demo_sampler 2 rotate_rng_valid);
    simpl; lia.
Defined.

Lemma sortish_sort_keeps_ties_witness :
  ∃ sort_idx,
    SortishSampler.sort_chunks length demo_sampler [2; 3; 4; 5; 6; 0; 1] = Ok sort_idx ∧
    ∀ k, filter (λ i, SortishSampler.key_of length demo_sampler i = k) sort_idx
         = filter (λ i, SortishSampler.key_of length demo_sampler i = k)
                  [2; 3; 4; 5; 6; 0; 1].
Proof.
  destruct (sortish_sort_keeps_ties length demo_sampler [2; 3; 4; 5; 6; 0; 1]
              demo_idxs_perm)
    as (sort_idx & Hsort & Hties & _); [simpl; lia | simpl; lia |].
  exists sort_idx. split; [exact Hsort | exact Hties].
Defined.

Lemma sortish_one_chunk_first_batch_witness :
  ∃ out g',
    SortishSampler.__iter__ length rotate_rng demo_sampler 2 = (Ok out, g') ∧
    take 3 out = [5; 4; 2].
Proof.
  destruct (sortish_one_chunk_first_batch length rotate_rng demo_sampler 2
              rotate_rng_valid)
    as (out & g' & Hrun & Htake & _); [simpl; lia | simpl; lia |].
  exists out, g'. split; [exact Hrun | exact Htake].
Defined.

Lemma sortish_iter_sorts_megabatches_witness :
  ∃ ck_idx sorted out g' batches,
    SortishSampler.chunked (rotate 2 (seq 0 103)) (1 * 50) = Ok ck_idx ∧
    map length ck_idx = [50; 50; 3] ∧
    Forall2 (λ c s, s ≡ₚ c ∧
               StronglySorted
                 (λ i j, ∃ ki kj,
                    SortishSampler.key length demo_long_sampler i = Ok ki ∧
                    SortishSampler.key length demo_long_sampler j = Ok kj ∧ kj ≤ ki) s)
            ck_idx sorted ∧
    SortishSampler.__iter__ length rotate_rng demo_long_sampler 2 = (Ok out, g') ∧
    out = concat batches ∧
    batches ≡ₚ Py.chunks 1 (concat sorted).
Proof.
  destruct (sortish_iter_sorts_megabatches length rotate_rng demo_long_sampler 2
              rotate_rng_valid)
    as (ck_idx & sorted & out & g' & batches & Hck & _ & _ & _ & Hsorted & Hrun &
        Hout & Hbatches); [vm_compute; lia | simpl; lia |].
  exists ck_idx, sorted, out, g', batches.
  split; [exact Hck |]. split.
  { vm_compute in Hck. injection Hck as <-. reflexivity. }
  split; [exact Hsorted |]. split; [exact Hrun |]. split; [exact Hout | exact Hbatches].
Defined.

Lemma encode_file_cache_hit_witness :
  let w1 := (encode_file demo_tokenizer "data/train.source" 1024 true "pt" false
               "summarize: " "T5" demo_world).2 in
  encode_file demo_tokenizer "data/train.source" 1024 true "pt" false
    "summarize: " "T5" w1
  = encode_file demo_tokenizer "data/train.source" 1024 false "np" false
      "translate: " "T5" w1.
Proof.
  apply (encode_file_cache_hit demo_tokenizer demo_tokenizer "data/train.source" 1024
           true false "pt" "np" "summarize: " "translate: " "T5").
  eexists. vm_compute. reflexivity.
Defined.

Lemma encode_file_missing_input_witness :
  encode_file demo_tokenizer "data/val.source" 1024 true "pt" false "" "T5" demo_world
  = (Raise (FileNotFoundError "data/val.source"), demo_world).
Proof.
  apply encode_file_missing_input; [vm_compute; reflexivity |].
  right. vm_compute. reflexivity.
Defined.

Lemma cache_path_separates_witness :
  cache_path_of "data/train.source" "T5" 1024 ≠ cache_path_of "data/train.source" "T5" 512.
Proof.
  apply (cache_path_separates "data/train.source" "data/train.source" "T5" 1024 512).
  left. split; [reflexivity | discriminate].
Defined.


Lemma load_pt_reads_cache_witness :
  ∃ examples w',
    encode_file demo_tokenizer "data/train.source" 1024 true "pt" false
      "summarize: " "T5" demo_world = (Ok examples, w') ∧
    load_pt (cache_path_of "data/train.source" "T5" 1024) w' = (Ok examples, w') ∧
    load_pt "data/train.source" w'
      = (Raise (UnpicklingError "data/train.source"), w').
Proof.
  apply (load_pt_reads_cache demo_tokenizer "data/train.source" 1024 true "pt" false
           "summarize: " "T5" demo_world demo_source_lines).
  - vm_compute. reflexivity.
  - right. vm_compute. reflexivity.
Defined.

Lemma from_raw_data_reuses_cache_witness :
  ∃ ds w',
    from_raw_data demo_tokenizer "data" "train" 1024 56 None false "" demo_world
      = (Ok ds, w') ∧
    from_raw_data demo_tokenizer "data" "train" 1024 56 (Some 1%Z) false "" w'
      = (Ok (__init__ (source ds) (target ds) 1024 56 (Some 1%Z)), w').
Proof.
  destruct (from_raw_data_reuses_cache demo_tokenizer "data" "train" 1024 56 None
              false "" demo_world demo_source_lines demo_target_lines)
    as (ds & w' & Hrun & Hagain).
  - vm_compute. reflexivity.
  - vm_compute. reflexivity.
  - right. split; vm_compute; reflexivity.
  - exists ds, w'. split; [exact Hrun |].
    rewrite (Hagain demo_tokenizer (Some 1%Z) eq_refl).
    vm_compute in Hrun. injection Hrun as <- _. reflexivity.
Defined.

Lemma from_raw_data_truncates_after_caching_witness :
  ∃ ds w' src_all,
    from_raw_data demo_tokenizer "data" "train" 1024 56 (Some 1%Z) false "" demo_world
      = (Ok ds, w') ∧
    fs w' !! "data/train.source_T51024.pkl" = Some (PickleFile src_all) ∧
    length src_all = 2 ∧ __len__ ds = 1.
Proof.
  destruct (from_raw_data_truncates_after_caching demo_tokenizer "data" "train" 1024 56
              1 false "" demo_world demo_source_lines demo_target_lines)
    as (ds & w' & src_all & tgt_all & Hrun & Hsrc & _ & Hlen & _ & _ & _ & Hds).
  - vm_compute. reflexivity.
  - vm_compute. reflexivity.
  - right. split; vm_compute; reflexivity.
  - lia.
  - exists ds, w', src_all. repeat split; assumption.
Defined.

Lemma from_raw_data_missing_file_witness :
  ∃ w1,
    from_raw_data demo_tokenizer "data" "train" 1024 56 None false ""
      demo_world_no_target
    = (Raise (FileNotFoundError "data/train.target"), w1) ∧
    is_Some (fs w1 !! "data/train.source_T51024.pkl").
Proof.
  destruct (from_raw_data_missing_file demo_tokenizer "data" "train" 1024 56 None
              false "" demo_world_no_target) as [_ Htarget].
  - right. split; vm_compute; reflexivity.
  - eexists. split.
    + apply (Htarget demo_source_lines); vm_compute; reflexivity.
    + eexists. vm_compute. reflexivity.
Defined.

Lemma init_keeps_pairs_witness :
  ∃ k,
    source (__init__ [(); (); ()] [(); (); ()] 1024 56 (Some (-1)%Z))
      = take k [(); (); ()] ∧
    target (__init__ [(); (); ()] [(); (); ()] 1024 56 (Some (-1)%Z))
      = take k [(); (); ()] ∧
    Z.of_nat k = 2%Z.
Proof.
  destruct (init_keeps_pairs [(); (); ()] [(); (); ()] 1024 56 (Some (-1)%Z) eq_refl)
    as (k & Hs & Ht & _ & _ & Hk).
  exists k. split; [exact Hs |]. split; [exact Ht | exact Hk].
Defined.

Lemma demo_dict_dataset_fields :
  Forall (λ d : gmap string tensor,
            is_Some (d !! "input_ids") ∧ is_Some (d !! "attention_mask"))
         (source demo_dict_dataset) ∧
  Forall (λ d : gmap string tensor, is_Some (d !! "input_ids"))
         (target demo_dict_dataset).
Proof.
  split; cbn [source target demo_dict_dataset __init__];
    repeat (apply Forall_cons; split); try apply Forall_nil;
    try split; eexists; vm_compute; reflexivity.
Qed.

Lemma demo_dict_dataset_rows :
  Forall (λ d, has_row "input_ids" 3 d ∧ has_row "attention_mask" 3 d)
         (source demo_dict_dataset) ∧
  Forall (has_row "input_ids" 2) (target demo_dict_dataset).
Proof.
  split; cbn [source target demo_dict_dataset __init__];
    repeat (apply Forall_cons; split); try apply Forall_nil;
    try split; eexists; (split; [vm_compute; reflexivity | done]).
Qed.

Lemma getitem_succeeds_iff_witness :
  (- Z.of_nat (length (source demo_dict_dataset)) ≤ -1
   < Z.of_nat (length (source demo_dict_dataset)))%Z ∧
  (- Z.of_nat (length (target demo_dict_dataset)) ≤ -1
   < Z.of_nat (length (target demo_dict_dataset)))%Z.
Proof.
  exact (getitem_succeeds_iff demo_dict_dataset (-1)
           (proj1 demo_dict_dataset_fields) (proj2 demo_dict_dataset_fields)).
Defined.

Lemma getitem_then_collate_witness :
  ∃ gitems out,
    Forall2 (λ i it, __getitem__ demo_dict_dataset (Z.of_nat i) = Got it)
            [1; 0] gitems ∧
    collate_fn TrimBatch.trim_batch TrimBatch.trim_batch_with_mask demo_dict_dataset
      (map item_of gitems) = Ok out.
Proof.
  destruct (getitem_then_collate demo_dict_dataset TrimBatch.trim_batch
              TrimBatch.trim_batch_with_mask 3 2 [1; 0]
              (proj1 demo_dict_dataset_rows) (proj2 demo_dict_dataset_rows))
    as (gitems & out & Hget & _ & _ & Hout); try done.
  - repeat constructor.
  - exists gitems, out. split; [exact Hget | exact Hout].
Defined.

Lemma make_sortish_sampler_covers_dataset_witness :
  ∃ out g',
    SortishSampler.__iter__ dict_len rotate_rng
      (make_sortish_sampler demo_dict_dataset 1) 1 = (Ok out, g') ∧
    out ≡ₚ seq 0 (__len__ demo_dict_dataset).
Proof.
  destruct (make_sortish_sampler_covers_dataset rotate_rng dict_len demo_dict_dataset
              1 1 rotate_rng_valid) as (_ & _ & _ & Hrun).
  - vm_compute. lia.
  - lia.
  - exact Hrun.
Defined.

Lemma sampler_indices_are_fetchable_witness :
  ∃ out g',
    SortishSampler.__iter__ dict_len rotate_rng
      (make_sortish_sampler demo_dict_dataset 1) 1 = (Ok out, g') ∧
    length out = __len__ demo_dict_dataset ∧
    Forall (λ i, ∃ it, __getitem__ demo_dict_dataset (Z.of_nat i) = Got it) out.
Proof.
  apply (sampler_indices_are_fetchable rotate_rng demo_dict_dataset 1 1
           rotate_rng_valid (proj1 demo_dict_dataset_fields)
           (proj2 demo_dict_dataset_fields)); [reflexivity | vm_compute; lia | lia].
Defined.
